(** * extract_decoder.py: the fragment extractor

    A shallow embedding of [scripts/reverse-engineering/extract_decoder.py]
    and the properties of its natural-language specification.

    The script reads one HTML document, locates four fragments of obfuscated
    script text with [re.search] and [str.find], and writes them, followed by
    two trailer lines, to one output file.

    Modelling choices.
    - A text ([str]) is a [list ascii].  The patterns of the script are made
      of ASCII literals, ASCII character sets and the dot (anything but the
      line feed), so a document holding other code points can be read as its
      UTF-8 bytes: no byte of a multi-byte sequence is a line feed or an ASCII
      character, and the spans matched are the same.
    - [re.search] is a backtracking matcher over the pattern, with the
      priorities of Python's engine: a lazy star tries the shortest extension
      first, a greedy plus the longest, and the search returns the match at
      the leftmost position that has one.
    - [str.find] returns a [Z], with [-1] for no occurrence, as in Python.
    - The file system and the standard output are an explicit [world]; the
      body of [extract_decoder] is written in a small monad over it, with an
      outcome for the early [return] and one for the exceptions that reading
      the input raises: [FileNotFoundError] on a missing file and
      [UnicodeDecodeError] on one whose bytes are not valid UTF-8.
    - A file is seen through the text layer: it holds the text that reading
      it returns, decoded and with its newlines translated, which for the
      output file is the text the script wrote.  The bytes on the disk, and
      the faults of the operating system other than these two (permissions,
      a missing directory, a full disk), are not modelled. *)

From Stdlib Require Import Ascii String List ZArith Lia Bool Arith.
Import ListNotations.

Set Implicit Arguments.

(** ** Texts *)

Definition text := list ascii.

Definition txt (s : string) : text := list_ascii_of_string s.

Definition newline : ascii := "010"%char.

(** The text ["\n"] *)
Definition nl : text := [newline].

(** [s.startswith(sub)] *)
Fixpoint starts_with (sub s : text) : bool :=
  match sub, s with
  | [], _ => true
  | _ :: _, [] => false
  | a :: sub', b :: s' => Ascii.eqb a b && starts_with sub' s'
  end.

(** The least index [>= i] at which [sub] occurs, where [s] is the document
    from position [i] on. *)
Fixpoint index_from (sub s : text) (i : nat) : option nat :=
  if starts_with sub s then Some i
  else match s with
       | [] => None
       | _ :: s' => index_from sub s' (S i)
       end.

(** Python's reading of a slice or search bound: a negative index counts from
    the end, and the result is clamped to the text. *)
Definition bound_low (n i : Z) : Z :=
  if (i <? 0)%Z then Z.max 0 (i + n) else i.

Definition bound (n i : Z) : Z :=
  if (i <? 0)%Z then Z.max 0 (i + n) else Z.min i n.

(** [s.find(sub, start)]: the lowest index at or after [start] where [sub]
    occurs, [-1] when there is none. *)
Definition find (s sub : text) (start : Z) : Z :=
  let n := Z.of_nat (length s) in
  let start := bound_low n start in
  if (n <? start)%Z then (-1)%Z
  else match index_from sub (skipn (Z.to_nat start) s) (Z.to_nat start) with
       | Some i => Z.of_nat i
       | None => (-1)%Z
       end.

(** [s[a:b]] *)
Definition slice (s : text) (a b : Z) : text :=
  let n := Z.of_nat (length s) in
  let a := bound n a in
  let b := bound n b in
  firstn (Z.to_nat (b - a)) (skipn (Z.to_nat a) s).

(** ** Regular expressions

    The five patterns of the script are sequences of literal characters,
    lazy stars and greedy pluses over a set of characters, and one capturing
    group. *)

Inductive item : Type :=
| Chr (c : ascii)                    (* a literal character, escaped or not *)
| LazyStar (cls : ascii -> bool)     (* X*? *)
| GreedyPlus (cls : ascii -> bool)   (* X+ *)
| GOpen                              (* the opening parenthesis of group 1 *)
| GClose.                            (* its closing parenthesis *)

Definition regex := list item.

Definition lits (s : string) : regex := map Chr (txt s).

(** [.] without the DOTALL flag *)
Definition dot (c : ascii) : bool := negb (Ascii.eqb c newline).

Definition in_range (lo hi c : ascii) : bool :=
  (N_of_ascii lo <=? N_of_ascii c)%N && (N_of_ascii c <=? N_of_ascii hi)%N.

(** [[a-zA-Z0-9_,]] *)
Definition ident_class (c : ascii) : bool :=
  in_range "a" "z" c || in_range "A" "Z" c || in_range "0" "9" c
  || Ascii.eqb c "_" || Ascii.eqb c ",".

(** [[0-9a-f]] *)
Definition hex_class (c : ascii) : bool :=
  in_range "0" "9" c || in_range "a" "f" c.

(** What a match records, as offsets from its first character: where it
    stops, and where group 1 starts and stops. *)
Record span : Type := Span {
  stop : nat;
  g1_start : option nat;
  g1_stop : option nat
}.

Definition shift (k : nat) (r : span) : span :=
  {| stop := k + stop r;
     g1_start := option_map (Nat.add k) (g1_start r);
     g1_stop := option_map (Nat.add k) (g1_stop r) |}.

(** The match of a pattern at the head of a text: the first one in the
    engine's backtracking order. *)
Fixpoint match_here (r : regex) : text -> option span :=
  match r with
  | [] => fun _ => Some (Span 0 None None)
  | Chr c :: r' => fun s =>
      match s with
      | a :: s' => if Ascii.eqb c a then option_map (shift 1) (match_here r' s')
                   else None
      | [] => None
      end
  | LazyStar cls :: r' =>
      fix lazy (s : text) : option span :=
        match match_here r' s with
        | Some m => Some m
        | None =>
            match s with
            | a :: s' => if cls a then option_map (shift 1) (lazy s') else None
            | [] => None
            end
        end
  | GreedyPlus cls :: r' =>
      let greedy :=
        fix greedy (s : text) : option span :=
          match s with
          | a :: s' =>
              if cls a then
                match greedy s' with
                | Some m => Some (shift 1 m)
                | None => match_here r' s
                end
              else match_here r' s
          | [] => match_here r' []
          end in
      fun s =>
        match s with
        | a :: s' => if cls a then option_map (shift 1) (greedy s') else None
        | [] => None
        end
  | GOpen :: r' => fun s =>
      option_map (fun m => Span (stop m) (Some 0) (g1_stop m)) (match_here r' s)
  | GClose :: r' => fun s =>
      option_map (fun m => Span (stop m) (g1_start m) (Some 0)) (match_here r' s)
  end.

(** A match object: the position of the match in the document and its span. *)
Record Match : Type := MkMatch {
  m_start : nat;
  m_span : span
}.

Fixpoint search_from (r : regex) (s : text) (i : nat) : option Match :=
  match match_here r s with
  | Some m => Some (MkMatch i m)
  | None =>
      match s with
      | [] => None
      | _ :: s' => search_from r s' (S i)
      end
  end.

(** [re.search(r, s)] *)
Definition re_search (r : regex) (s : text) : option Match :=
  search_from r s 0.

(** [m.group(0)] *)
Definition group0 (s : text) (m : Match) : text :=
  firstn (stop (m_span m)) (skipn (m_start m) s).

(** [m.group(1)] *)
Definition group1 (s : text) (m : Match) : text :=
  match g1_start (m_span m), g1_stop (m_span m) with
  | Some a, Some b => firstn (b - a) (skipn (m_start m + a) s)
  | _, _ => []
  end.

(** ** The patterns of the script *)

(** [function _0x8b05\(\)\{.*?return _0x8b05\(\);\}] *)
Definition pat_8b05 : regex :=
  lits "function _0x8b05(){" ++ [LazyStar dot] ++ lits "return _0x8b05();}".

(** [function _0xb4a0\([a-zA-Z0-9_,]+\)\{.*?_0xb4a0\([a-zA-Z0-9_,]+\)\;\}] *)
Definition pat_b4a0 : regex :=
  lits "function _0xb4a0(" ++ [GreedyPlus ident_class] ++ lits "){"
  ++ [LazyStar dot]
  ++ lits "_0xb4a0(" ++ [GreedyPlus ident_class] ++ lits ");}".

(** [function _0xb4a0\([a-zA-Z0-9_,]+\)\{.*?return _0x8b0550\[t\];\}] *)
Definition pat_b4a0_alt : regex :=
  lits "function _0xb4a0(" ++ [GreedyPlus ident_class] ++ lits "){"
  ++ [LazyStar dot]
  ++ lits "return _0x8b0550[t];}".

(** [\(function\(_0x9dcbec,_0x4ab1b0\)\{.*?\(_0x8b05,0x[0-9a-f]+\)\)\;] *)
Definition pat_shuffle : regex :=
  lits "(function(_0x9dcbec,_0x4ab1b0){" ++ [LazyStar dot]
  ++ lits "(_0x8b05,0x" ++ [GreedyPlus hex_class] ++ lits "));".

(** [window\['ZpQw9XkLmN8c3vR3'\]='(.*?)';] *)
Definition pat_config : regex :=
  lits "window['ZpQw9XkLmN8c3vR3']='" ++ [GOpen; LazyStar dot; GClose]
  ++ lits "';".

(** ** The four extractions

    Each extraction reads the document only; its effects are the messages it
    prints and the early [return] from [extract_decoder].  A block is the list
    of messages printed, in order, and the fragment found, [None] when the
    function returns. *)

Definition Block (A : Type) : Type := (list text * option A)%type.

Definition found {A} (a : A) : Block A := ([], Some a).
Definition leave {A} : Block A := ([], None).
Definition say {A} (msg : string) (k : Block A) : Block A :=
  (txt msg :: fst k, snd k).

(** [!=] on the result of [find] *)
Definition neq (a b : Z) : bool := negb (a =? b)%Z.

(** Lines 11 to 17: the lookup-table function. *)
Definition func_8b05 (content : text) : Block text :=
  let match_8b05 := re_search pat_8b05 content in
  match match_8b05 with
  | None => say "Could not find _0x8b05 function" leave
  | Some m => found (group0 content m)
  end.

(** Lines 19 to 44: the decoder function. *)
Definition func_b4a0 (content : text) : Block text :=
  let match_b4a0 := re_search pat_b4a0 content in
  let match_b4a0 :=
    match match_b4a0 with
    | None => re_search pat_b4a0_alt content
    | Some _ => match_b4a0
    end in
  match match_b4a0 with
  | None =>
      let start_idx := find content (txt "function _0xb4a0") 0 in
      if neq start_idx (-1) then
        let end_idx := find content (txt "(function(_0x9dcbec") start_idx in
        if neq end_idx (-1) then found (slice content start_idx end_idx)
        else say "Could not find end of _0xb4a0" leave
      else say "Could not find _0xb4a0 function" leave
  | Some m => found (group0 content m)
  end.

(** Lines 46 to 66: the shuffle routine. *)
Definition shuffle_iife (content : text) : Block text :=
  let match_shuffle := re_search pat_shuffle content in
  match match_shuffle with
  | None =>
      say "Could not find shuffle IIFE"
        (let start_idx := find content (txt "(function(_0x9dcbec") 0 in
         if neq start_idx (-1) then
           let end_idx := find content (txt ",!(function") start_idx in
           if neq end_idx (-1) then found (slice content start_idx end_idx)
           else say "Could not find end of shuffle IIFE" leave
         else leave)
  | Some m => found (group0 content m)
  end.

(** Lines 68 to 74: the configuration string. *)
Definition config_str (content : text) : Block text :=
  let match_config := re_search pat_config content in
  match match_config with
  | None => say "Could not find config string" leave
  | Some m => found (group1 content m)
  end.

(** ** The world and the monad of the function body *)

Definition html_path : string :=
  "C:\Users\Nicks\Desktop\Flyx-main\scripts\reverse-engineering\dlhd-stream.html".
Definition output_path : string :=
  "C:\Users\Nicks\Desktop\Flyx-main\scripts\reverse-engineering\decoder_parts.js".

(** What a file holds, as the text layer shows it: the text that reading it
    with [encoding='utf-8'] returns, newlines translated, which is also the
    text a [write] was given; or bytes that are not valid UTF-8. *)
Inductive file : Type :=
| Text (t : text)
| Undecodable.

Record world : Type := World {
  fs : string -> option file;      (* what each file that exists holds *)
  stdout : list text               (* the messages printed so far *)
}.

Inductive exn : Type :=
| FileNotFoundError (path : string)
| UnicodeDecodeError (path : string).

Inductive outcome (A : Type) : Type :=
| Next (a : A)          (* the body goes on *)
| Returned              (* a [return] ended the function *)
| Raised (e : exn).     (* an exception left it *)

Arguments Next {A} a.
Arguments Returned {A}.
Arguments Raised {A} e.

Definition M (A : Type) : Type := world -> outcome A * world.

Definition ret {A} (a : A) : M A := fun w => (Next a, w).

Definition bind {A B} (m : M A) (k : A -> M B) : M B :=
  fun w =>
    match m w with
    | (Next a, w') => k a w'
    | (Returned, w') => (Returned, w')
    | (Raised e, w') => (Raised e, w')
    end.

Notation "x <- m ;; k" := (bind m (fun x => k))
  (at level 61, m at next level, right associativity).
Notation "m ;; k" := (bind m (fun _ => k))
  (at level 61, right associativity).

Definition print (msg : text) : M unit :=
  fun w => (Next tt, World (fs w) (stdout w ++ [msg])).

(** [open(path, 'r', encoding='utf-8')] and [f.read()]: [open] raises on a
    file that does not exist, [read] on bytes that do not decode. *)
Definition read_text (path : string) : M text :=
  fun w =>
    match fs w path with
    | Some (Text data) => (Next data, w)
    | Some Undecodable => (Raised (UnicodeDecodeError path), w)
    | None => (Raised (FileNotFoundError path), w)
    end.

Definition update (f : string -> option file) (path : string) (data : text)
  : string -> option file :=
  fun p => if String.eqb p path then Some (Text data) else f p.

(** [open(path, 'w')]: the file is created, or emptied when it exists. *)
Definition open_w (path : string) : M unit :=
  fun w => (Next tt, World (update (fs w) path []) (stdout w)).

(** [f.write(data)] on a file opened for writing: the data is appended. *)
Definition write (path : string) (data : text) : M unit :=
  fun w =>
    let old := match fs w path with Some (Text d) => d | _ => [] end in
    (Next tt, World (update (fs w) path (old ++ data)) (stdout w)).

(** An extraction inside the body: its messages are printed, and the body goes
    on with the fragment or returns. *)
Fixpoint print_all (msgs : list text) : M unit :=
  match msgs with
  | [] => ret tt
  | msg :: rest => print msg ;; print_all rest
  end.

Definition run_block {A} (b : Block A) : M A :=
  print_all (fst b) ;;
  match snd b with
  | Some a => ret a
  | None => fun w => (Returned, w)
  end.

Definition success_message : text :=
  txt "Successfully extracted decoder parts to " ++ txt output_path.

(** [extract_decoder()], lines 7 to 83. *)
Definition extract_decoder : M unit :=
  content <- read_text html_path ;;
  func_8b05 <- run_block (func_8b05 content) ;;
  func_b4a0 <- run_block (func_b4a0 content) ;;
  shuffle_iife <- run_block (shuffle_iife content) ;;
  config_str <- run_block (config_str content) ;;
  open_w output_path ;;
  write output_path (func_8b05 ++ nl) ;;
  write output_path (func_b4a0 ++ nl) ;;
  write output_path (shuffle_iife ++ nl) ;;
  write output_path
    (txt "const configString = '" ++ config_str ++ txt "';" ++ nl) ;;
  write output_path (txt "module.exports = { _0xb4a0, configString };" ++ nl) ;;
  print success_message.

(** Lines 85 and 86: the script calls [extract_decoder()] when it is run, and
    drops what it returns.  The interpreter ends with status 0 when the call
    comes back, by a [return] or at the end of the body, and with status 1
    when an exception leaves the script. *)
Definition main (w : world) : Z * world :=
  match extract_decoder w with
  | (Next _, w') => (0%Z, w')
  | (Returned, w') => (0%Z, w')
  | (Raised _, w') => (1%Z, w')
  end.


(** * The vocabulary of the properties

    Occurrences of tokens in a document, fragments delimited by two tokens,
    what a run prints and writes, and the documents the properties are tried
    on. *)

(** [sub] occurs in [s] at position [i]. *)
Definition occurs_at (sub s : text) (i : nat) : Prop :=
  exists pre post, s = pre ++ sub ++ post /\ length pre = i.

(** [k] is the first position at or after [a] where [sub] occurs in [s]. *)
Definition first_from (sub s : text) (a k : nat) : Prop :=
  a <= k /\ occurs_at sub s k /\
  forall j, a <= j -> j < k -> ~ occurs_at sub s j.

(** No character of the text is a line feed. *)
Definition one_line (t : text) : Prop := ~ In newline t.

(** The text [mid] is delimited at position [i] of the document [s]: the
    opening token occurs at [i], [mid] follows it on one line, and the closing
    token follows [mid], at its first occurrence after the opening token. *)
Definition delimited (open close s : text) (i : nat) (mid : text) : Prop :=
  (exists pre post, s = pre ++ open ++ mid ++ close ++ post /\ length pre = i)
  /\ one_line mid
  /\ first_from close s (i + length open) (i + length open + length mid).

(** The same, seen from the end of the opening token. *)
Definition closes (close rest mid : text) : Prop :=
  (exists post, rest = mid ++ close ++ post) /\ one_line mid /\
  forall j, j < length mid -> ~ occurs_at close rest j.

(** The span of a match of a pattern [open .*? close] around the text [mid]:
    [m0] is the span of the closing part and [f] what the group parentheses
    record. *)
Definition span_of (open : text) (m0 : span) (f : span -> span) (mid : text)
  : span :=
  shift (length open) (f (shift (length mid) m0)).

(** The tokens of the patterns and of the literal searches. *)
Definition open_8b05 : text := txt "function _0x8b05(){".
Definition close_8b05 : text := txt "return _0x8b05();}".
Definition open_config : text := txt "window['ZpQw9XkLmN8c3vR3']='".
Definition close_config : text := txt "';".

(** The four fragments, when every extraction finds its own. *)
Definition fragments (content : text) : option (text * text * text * text) :=
  match snd (func_8b05 content), snd (func_b4a0 content),
        snd (shuffle_iife content), snd (config_str content) with
  | Some f1, Some f2, Some f3, Some p => Some (f1, f2, f3, p)
  | _, _, _, _ => None
  end.

(** The messages of the extractions, up to and including the first one that
    makes the function return. *)
Definition diagnostics (content : text) : list text :=
  fst (func_8b05 content) ++
  match snd (func_8b05 content) with
  | None => []
  | Some _ =>
      fst (func_b4a0 content) ++
      match snd (func_b4a0 content) with
      | None => []
      | Some _ =>
          fst (shuffle_iife content) ++
          match snd (shuffle_iife content) with
          | None => []
          | Some _ => fst (config_str content)
          end
      end
  end.

(** The document the specification describes: the three fragments, the
    constant declaration and the export statement, one per line. *)
Definition assembled (f1 f2 f3 payload : text) : text :=
  f1 ++ nl ++ f2 ++ nl ++ f3 ++ nl
  ++ txt "const configString = '" ++ payload ++ txt "';" ++ nl
  ++ txt "module.exports = { _0xb4a0, configString };" ++ nl.

(** The positions at which [sub] occurs, where [s] is the document from
    position [i] on. *)
Fixpoint occurrences_from (sub s : text) (i : nat) : list nat :=
  (if starts_with sub s then [i] else [])
  ++ match s with
     | [] => []
     | _ :: s' => occurrences_from sub s' (S i)
     end.

(** All the positions at which [sub] occurs in [s], in increasing order. *)
Definition occurrences (sub s : text) : list nat := occurrences_from sub s 0.

(** The shape both positional fallbacks have in the source: find the start
    token, then the marker from there on, and slice between the two. *)
Definition positional (content start marker : text)
    (no_end no_start : Block text) : Block text :=
  let start_idx := find content start 0 in
  if neq start_idx (-1) then
    let end_idx := find content marker start_idx in
    if neq end_idx (-1) then found (slice content start_idx end_idx)
    else no_end
  else no_start.

(** The start tokens and markers of the fallbacks. *)
Definition start_b4a0 : text := txt "function _0xb4a0".
Definition start_shuffle : text := txt "(function(_0x9dcbec".
Definition next_statement : text := txt ",!(function".

(** The diagnostics of the script. *)
Definition failure_diagnostics : list text :=
  [txt "Could not find _0x8b05 function";
   txt "Could not find end of _0xb4a0";
   txt "Could not find _0xb4a0 function";
   txt "Could not find shuffle IIFE";
   txt "Could not find end of shuffle IIFE";
   txt "Could not find config string"].

(** The greedy repetition behind a [GreedyPlus], after its first character:
    the local function of [match_here], by name. *)
Section GreedyTail.

Variable cls : ascii -> bool.
Variable r : regex.

Fixpoint greedy_tail (s : text) : option span :=
  match s with
  | a :: s' =>
      if cls a then
        match greedy_tail s' with
        | Some m => Some (shift 1 m)
        | None => match_here r s
        end
      else match_here r s
  | [] => match_here r []
  end.

End GreedyTail.

(** The texts a pattern denotes. *)
Inductive matches : regex -> text -> Prop :=
| matches_nil : matches [] []
| matches_chr c r t : matches r t -> matches (Chr c :: r) (c :: t)
| matches_lazy cls r l t :
    forallb cls l = true -> matches r t -> matches (LazyStar cls :: r) (l ++ t)
| matches_plus cls r a l t :
    cls a = true -> forallb cls l = true -> matches r t ->
    matches (GreedyPlus cls :: r) (a :: l ++ t)
| matches_open r t : matches r t -> matches (GOpen :: r) t
| matches_close r t : matches r t -> matches (GClose :: r) t.

(** A pattern none of whose items accepts a line feed. *)
Definition item_on_line (it : item) : bool :=
  match it with
  | Chr c => negb (Ascii.eqb c newline)
  | LazyStar cls => negb (cls newline)
  | GreedyPlus cls => negb (cls newline)
  | GOpen => true
  | GClose => true
  end.

Definition line_bound (r : regex) : bool := forallb item_on_line r.

(** A text made of one character or more of a set. *)
Definition run_of (cls : ascii -> bool) (t : text) : Prop :=
  t <> [] /\ forallb cls t = true.

(** The texts [pat_b4a0] denotes: the decoder ending with its recursive
    self-invocation. *)
Definition decoder_shape (t : text) : Prop :=
  exists params body args,
    t = txt "function _0xb4a0(" ++ params ++ txt "){" ++ body
        ++ txt "_0xb4a0(" ++ args ++ txt ");}" /\
    run_of ident_class params /\ one_line body /\ run_of ident_class args.

(** The texts [pat_b4a0_alt] denotes: the decoder ending with its indexed
    return. *)
Definition decoder_alt_shape (t : text) : Prop :=
  exists params body,
    t = txt "function _0xb4a0(" ++ params ++ txt "){" ++ body
        ++ txt "return _0x8b0550[t];}" /\
    run_of ident_class params /\ one_line body.

(** The texts [pat_shuffle] denotes: the shuffle routine up to its closing
    invocation. *)
Definition shuffle_shape (t : text) : Prop :=
  exists body digits,
    t = txt "(function(_0x9dcbec,_0x4ab1b0){" ++ body
        ++ txt "(_0x8b05,0x" ++ digits ++ txt "));" /\
    one_line body /\ run_of hex_class digits.

(** [t] is a contiguous part of [s]. *)
Definition part_of (t s : text) : Prop := exists pre post, s = pre ++ t ++ post.

(** The document holds a part of the given shape. *)
Definition holds (shape : text -> Prop) (content : text) : Prop :=
  exists t, part_of t content /\ shape t.

(** Some occurrence of [start] in the document has an occurrence of [marker]
    at or after its position. *)
Definition followed_by (start marker content : text) : Prop :=
  exists i j, occurs_at start content i /\ occurs_at marker content j /\ i <= j.

(** The document holds a text delimited by the two tokens. *)
Definition has_delimited (open close content : text) : Prop :=
  exists i mid, delimited open close content i mid.

(** ** Sample documents *)

(** The end-to-end scenario of the specification. *)
Definition doc_full : text :=
  txt "<html>function _0x8b05(){return [1,2,3];return _0x8b05();}function _0xb4a0(_0x447697,_0x51a3a4){body;},_0xb4a0(_0x447697,_0x51a3a4);}(function(_0x9dcbec,_0x4ab1b0){x}(_0x8b05,0x58bbd));window['ZpQw9XkLmN8c3vR3']='abc123';</html>".

(** The same without the configuration assignment. *)
Definition doc_no_config : text :=
  txt "<html>function _0x8b05(){return [1,2,3];return _0x8b05();}function _0xb4a0(_0x447697,_0x51a3a4){body;},_0xb4a0(_0x447697,_0x51a3a4);}(function(_0x9dcbec,_0x4ab1b0){x}(_0x8b05,0x58bbd));</html>".

(** The closing invocation of the shuffle routine does not fit the pattern
    (its argument is in upper case); the routine is followed by [,!(function]. *)
Definition doc_shuffle_fallback : text :=
  txt "function _0x8b05(){return [1,2,3];return _0x8b05();}function _0xb4a0(_0x447697,_0x51a3a4){body;},_0xb4a0(_0x447697,_0x51a3a4);}(function(_0x9dcbec,_0x4ab1b0){x}(_0x8b05,0x58BBD)),!(function(){})();window['ZpQw9XkLmN8c3vR3']='abc123';".

(** A world whose input file holds [doc] and whose output file exists. *)
Definition world_of (doc : text) : world :=
  World (fun p => if String.eqb p html_path then Some (Text doc)
                  else if String.eqb p output_path
                       then Some (Text (txt "old content"))
                  else None)
        [].

(** The decoder ends with its precise end token and the shuffle routine
    starts later: the two boundaries differ. *)
Definition doc_precise_and_marker : text :=
  txt "function _0xb4a0(a,b){x;},_0xb4a0(a,b);}var y;(function(_0x9dcbec,z){})".

(** No end token of either pattern, only the start of the shuffle routine. *)
Definition doc_marker_only : text :=
  txt "<script>function _0xb4a0(a,b){x;}var y;(function(_0x9dcbec,z){})".

(** The decoder's start token is present, nothing that could end it. *)
Definition doc_no_decoder_end : text :=
  txt "function _0x8b05(){return [1,2,3];return _0x8b05();}function _0xb4a0(a,b){x;}".

(** The first start token of the lookup-table function is cut off from its
    end token by a line break; a complete function follows. *)
Definition doc_two_starts : text :=
  txt "function _0x8b05(){" ++ nl
  ++ txt "function _0x8b05(){return _0x8b05();}".

(** Both tokens of the lookup-table function, on two lines. *)
Definition doc_two_lines : text :=
  txt "function _0x8b05(){" ++ nl ++ txt "return _0x8b05();}".

(** The end-to-end scenario with an empty configuration payload. *)
Definition doc_empty_payload : text :=
  txt "<html>function _0x8b05(){return [1,2,3];return _0x8b05();}function _0xb4a0(_0x447697,_0x51a3a4){body;},_0xb4a0(_0x447697,_0x51a3a4);}(function(_0x9dcbec,_0x4ab1b0){x}(_0x8b05,0x58bbd));window['ZpQw9XkLmN8c3vR3']='';</html>".

(** * Lemmas *)

(** ** Occurrences of a text in a document *)

Section TextFacts.

Lemma starts_with_iff (sub s : text) :
  starts_with sub s = true <-> exists post, s = sub ++ post.
Proof.
  revert s; induction sub as [|a sub IH]; intros s; simpl.
  - split; [intros _; now exists s | reflexivity].
  - destruct s as [|b s].
    + split; [discriminate | intros [post H]; discriminate].
    + rewrite andb_true_iff, Ascii.eqb_eq, IH. split.
      * intros [-> [post ->]]. now exists post.
      * intros [post H]. injection H as -> ->. split; [reflexivity | now exists post].
Qed.

Lemma starts_with_app (sub post : text) : starts_with sub (sub ++ post) = true.
Proof. apply starts_with_iff. now exists post. Qed.

Lemma starts_with_skip (sub s : text) :
  starts_with sub s = true -> s = sub ++ skipn (length sub) s.
Proof.
  intros H. apply starts_with_iff in H as [post ->].
  now rewrite skipn_app, skipn_all, Nat.sub_diag.
Qed.

Lemma occurs_at_iff (sub s : text) (i : nat) :
  occurs_at sub s i <-> i <= length s /\ starts_with sub (skipn i s) = true.
Proof.
  split.
  - intros (pre & post & -> & <-). split.
    + rewrite length_app. lia.
    + rewrite skipn_app, skipn_all, Nat.sub_diag. simpl. apply starts_with_app.
  - intros [Hi H]. apply starts_with_iff in H as [post H].
    exists (firstn i s), post. split.
    + rewrite <- H. symmetry. apply firstn_skipn.
    + apply firstn_length_le. exact Hi.
Qed.

Lemma occurs_at_bound (sub s : text) (i : nat) :
  occurs_at sub s i -> i + length sub <= length s.
Proof.
  intros (pre & post & -> & <-). rewrite !length_app. lia.
Qed.

Lemma occurs_at_cons (sub : text) (a : ascii) (s : text) (i : nat) :
  occurs_at sub (a :: s) (S i) <-> occurs_at sub s i.
Proof.
  rewrite !occurs_at_iff. simpl.
  split; (intros [H1 H2]; split; [lia | exact H2]).
Qed.

Lemma occurs_at_prefix (p q s : text) (i : nat) :
  occurs_at (p ++ q) s i -> occurs_at p s i.
Proof.
  intros (pre & post & -> & <-). exists pre, (q ++ post).
  now rewrite <- app_assoc.
Qed.

Lemma index_from_some (sub s : text) (i k : nat) :
  index_from sub s i = Some k ->
  exists j, k = i + j /\ occurs_at sub s j /\
            forall j', j' < j -> ~ occurs_at sub s j'.
Proof.
  revert i k; induction s as [|a s IH]; intros i k; simpl.
  - destruct (starts_with sub []) eqn:E; [|discriminate].
    intros [= <-]. exists 0. split; [lia|]. split.
    + apply occurs_at_iff. split; [simpl; lia | exact E].
    + intros j' Hj'. lia.
  - destruct (starts_with sub (a :: s)) eqn:E.
    + intros [= <-]. exists 0. split; [lia|]. split.
      * apply occurs_at_iff. split; [simpl; lia | exact E].
      * intros j' Hj'. lia.
    + intros H. apply IH in H as (j & -> & Hocc & Hmin).
      exists (S j). split; [lia|]. split.
      * now apply occurs_at_cons.
      * intros [|j'] Hj'.
        -- rewrite occurs_at_iff. simpl. rewrite E. intros [_ H]. discriminate.
        -- rewrite occurs_at_cons. apply Hmin. lia.
Qed.

Lemma index_from_none (sub s : text) (i : nat) :
  index_from sub s i = None -> forall j, ~ occurs_at sub s j.
Proof.
  revert i; induction s as [|a s IH]; intros i; simpl.
  - destruct (starts_with sub []) eqn:E; [discriminate|].
    intros _ j. rewrite occurs_at_iff. simpl. intros [Hj H].
    replace j with 0 in H by lia. simpl in H. congruence.
  - destruct (starts_with sub (a :: s)) eqn:E; [discriminate|].
    intros H [|j].
    + rewrite occurs_at_iff. simpl. rewrite E. intros [_ H']. discriminate.
    + rewrite occurs_at_cons. eapply IH, H.
Qed.

Lemma occurs_at_skipn (sub s : text) (a j : nat) :
  a <= length s ->
  occurs_at sub (skipn a s) j <-> occurs_at sub s (a + j).
Proof.
  intros Ha. rewrite !occurs_at_iff, length_skipn, skipn_skipn.
  replace (j + a) with (a + j) by lia.
  split; (intros [H1 H2]; split; [lia | exact H2]).
Qed.

(** What [find] returns, for a start position that is not negative. *)
Lemma find_spec (s sub : text) (a : nat) :
  (exists k, find s sub (Z.of_nat a) = Z.of_nat k /\ first_from sub s a k)
  \/ (find s sub (Z.of_nat a) = (-1)%Z /\
      forall j, a <= j -> ~ occurs_at sub s j).
Proof.
  unfold find, bound_low.
  destruct (Z.ltb_spec (Z.of_nat a) 0) as [H|_]; [lia|].
  destruct (Z.ltb_spec (Z.of_nat (length s)) (Z.of_nat a)) as [H|H].
  - right. split; [reflexivity|]. intros j Hj Hocc.
    apply occurs_at_iff in Hocc. lia.
  - rewrite Nat2Z.id.
    destruct (index_from sub (skipn a s) a) as [k|] eqn:E.
    + left. exists k. split; [reflexivity|].
      apply index_from_some in E as (j & -> & Hocc & Hmin).
      split; [lia|]. split.
      * apply occurs_at_skipn in Hocc; [exact Hocc | lia].
      * intros j' H1 H2 Hocc'. apply (Hmin (j' - a)); [lia|].
        apply occurs_at_skipn; [lia|]. now replace (a + (j' - a)) with j' by lia.
    + right. split; [reflexivity|]. intros j Hj Hocc.
      apply (@index_from_none _ _ _ E (j - a)).
      apply occurs_at_skipn; [lia|]. now replace (a + (j - a)) with j by lia.
Qed.

Lemma first_from_unique (sub s : text) (a k k' : nat) :
  first_from sub s a k -> first_from sub s a k' -> k = k'.
Proof.
  intros (H1 & H2 & H3) (H1' & H2' & H3').
  destruct (Nat.lt_trichotomy k k') as [H|[H|H]]; [|exact H|].
  - exfalso. now apply (H3' k).
  - exfalso. now apply (H3 k').
Qed.

Lemma find_first (s sub : text) (a k : nat) :
  first_from sub s a k -> find s sub (Z.of_nat a) = Z.of_nat k.
Proof.
  intros H. destruct (find_spec s sub a) as [(k' & -> & H')|[_ Hno]].
  - f_equal. eapply first_from_unique; eassumption.
  - destruct H as (H1 & H2 & _). exfalso. now apply (Hno k).
Qed.

Lemma find_absent (s sub : text) (a : nat) :
  (forall j, a <= j -> ~ occurs_at sub s j) ->
  find s sub (Z.of_nat a) = (-1)%Z.
Proof.
  intros H. destruct (find_spec s sub a) as [(k & _ & H1 & H2 & _)|[E _]].
  - exfalso. now apply (H k).
  - exact E.
Qed.

Lemma slice_nat (s : text) (a b : nat) :
  a <= b -> b <= length s ->
  slice s (Z.of_nat a) (Z.of_nat b) = firstn (b - a) (skipn a s).
Proof.
  intros Hab Hb. unfold slice, bound.
  destruct (Z.ltb_spec (Z.of_nat a) 0) as [H|_]; [lia|].
  destruct (Z.ltb_spec (Z.of_nat b) 0) as [H|_]; [lia|].
  rewrite !Z.min_l by lia. rewrite <- Nat2Z.inj_sub by lia.
  now rewrite !Nat2Z.id.
Qed.

(** A slice between two positions of the document is the text between
    them. *)
Lemma slice_app (pre mid post : text) :
  slice (pre ++ mid ++ post)
        (Z.of_nat (length pre)) (Z.of_nat (length pre + length mid)) = mid.
Proof.
  rewrite slice_nat; [|lia|rewrite !length_app; lia].
  rewrite skipn_app, skipn_all, Nat.sub_diag. simpl.
  replace (length pre + length mid - length pre) with (length mid) by lia.
  rewrite firstn_app, firstn_all, Nat.sub_diag. simpl. apply app_nil_r.
Qed.

End TextFacts.

(** ** The matcher *)

Section MatcherFacts.

Lemma shift_0 (m : span) : shift 0 m = m.
Proof.
  destruct m as [e [a|] [b|]]; reflexivity.
Qed.

Lemma shift_shift (a b : nat) (m : span) :
  shift a (shift b m) = shift (a + b) m.
Proof.
  destruct m as [e [x|] [y|]]; unfold shift; simpl; f_equal; try lia; f_equal; lia.
Qed.

Lemma map_shift_shift (a b : nat) (o : option span) :
  option_map (shift a) (option_map (shift b) o)
  = option_map (shift (a + b)) o.
Proof.
  destruct o as [m|]; simpl; [now rewrite shift_shift | reflexivity].
Qed.

Lemma map_shift_0 (o : option span) : option_map (shift 0) o = o.
Proof.
  destruct o as [m|]; simpl; [now rewrite shift_0 | reflexivity].
Qed.

(** A run of literal characters matches the text it spells. *)
Lemma match_here_chars (p : text) (r : regex) (s : text) :
  match_here (map Chr p ++ r) s
  = if starts_with p s
    then option_map (shift (length p)) (match_here r (skipn (length p) s))
    else None.
Proof.
  revert s; induction p as [|c p IH]; intros s.
  - simpl. now rewrite map_shift_0.
  - destruct s as [|a s]; [reflexivity|].
    change (match_here (map Chr (c :: p) ++ r) (a :: s))
      with (if Ascii.eqb c a
            then option_map (shift 1) (match_here (map Chr p ++ r) s)
            else None).
    simpl starts_with. destruct (Ascii.eqb c a); [|reflexivity].
    rewrite IH. simpl. destruct (starts_with p s); [|reflexivity].
    apply map_shift_shift.
Qed.

Lemma match_here_chars_only (p s : text) :
  match_here (map Chr p) s
  = if starts_with p s then Some (Span (length p) None None) else None.
Proof.
  rewrite <- (app_nil_r (map Chr p)), match_here_chars.
  destruct (starts_with p s); [|reflexivity].
  simpl. unfold shift. simpl. now rewrite Nat.add_0_r.
Qed.

Section Lazy.

Variable cls : ascii -> bool.
Variable r : regex.

Lemma lazy_unfold (s : text) :
  match_here (LazyStar cls :: r) s
  = match match_here r s with
    | Some m => Some m
    | None =>
        match s with
        | a :: s' =>
            if cls a
            then option_map (shift 1) (match_here (LazyStar cls :: r) s')
            else None
        | [] => None
        end
    end.
Proof. destruct s; reflexivity. Qed.

(** The lazy star stops at the first position where the rest of the
    pattern matches, and only crosses characters of its set. *)
Lemma lazy_some (s : text) (m : span) :
  match_here (LazyStar cls :: r) s = Some m ->
  exists k m',
    k <= length s /\ forallb cls (firstn k s) = true /\
    match_here r (skipn k s) = Some m' /\ m = shift k m' /\
    forall j, j < k -> match_here r (skipn j s) = None.
Proof.
  revert m; induction s as [|a s IH]; intros m; rewrite lazy_unfold.
  - destruct (match_here r []) as [m0|] eqn:E; [|discriminate].
    intros [= <-]. exists 0, m0. rewrite shift_0. simpl.
    repeat split; auto; intros j Hj; lia.
  - destruct (match_here r (a :: s)) as [m0|] eqn:E.
    + intros [= <-]. exists 0, m0. rewrite shift_0. simpl.
      repeat split; auto; try lia; intros j Hj; lia.
    + destruct (cls a) eqn:Ha; [|discriminate].
      destruct (match_here (LazyStar cls :: r) s) as [m1|] eqn:E1;
        [|discriminate].
      intros [= <-].
      destruct (IH m1 eq_refl) as (k & m' & Hk & Hall & Hm & -> & Hmin).
      exists (S k), m'. simpl. rewrite Ha, Hall, shift_shift.
      repeat split; auto; try lia;
        intros [|j] Hj; simpl; [exact E | apply Hmin; lia].
Qed.

Lemma lazy_none (s : text) :
  match_here (LazyStar cls :: r) s = None ->
  forall k, k <= length s -> forallb cls (firstn k s) = true ->
            match_here r (skipn k s) = None.
Proof.
  induction s as [|a s IH]; rewrite lazy_unfold.
  - destruct (match_here r []) eqn:E; [discriminate|].
    intros _ k Hk _. simpl in Hk. now replace k with 0 by lia.
  - destruct (match_here r (a :: s)) eqn:E; [discriminate|].
    intros H [|k] Hk Hall; [exact E|]. simpl in Hk, Hall |- *.
    apply andb_true_iff in Hall as [Ha Hall]. rewrite Ha in H.
    destruct (match_here (LazyStar cls :: r) s) eqn:E1; [discriminate|].
    apply IH; auto. lia.
Qed.

Lemma lazy_intro (s : text) (k : nat) (m' : span) :
  k <= length s -> forallb cls (firstn k s) = true ->
  match_here r (skipn k s) = Some m' ->
  (forall j, j < k -> match_here r (skipn j s) = None) ->
  match_here (LazyStar cls :: r) s = Some (shift k m').
Proof.
  intros Hk Hall Hm Hmin.
  destruct (match_here (LazyStar cls :: r) s) as [m|] eqn:E.
  - apply lazy_some in E as (k1 & m1 & Hk1 & Hall1 & Hm1 & -> & Hmin1).
    destruct (Nat.lt_trichotomy k k1) as [H|[H|H]].
    + rewrite (Hmin1 k H) in Hm. discriminate.
    + subst k1. congruence.
    + rewrite (Hmin k1 H) in Hm1. discriminate.
  - rewrite (lazy_none _ E Hk Hall) in Hm. discriminate.
Qed.

End Lazy.

(** [re.search] returns the match at the least position that has one. *)
Lemma search_from_some (r : regex) (s : text) (i : nat) (m : Match) :
  search_from r s i = Some m ->
  exists j, m_start m = i + j /\ j <= length s /\
            match_here r (skipn j s) = Some (m_span m) /\
            forall j', j' < j -> match_here r (skipn j' s) = None.
Proof.
  revert i; induction s as [|a s IH]; intros i; simpl.
  - destruct (match_here r []) as [m0|] eqn:E; [|discriminate].
    intros [= <-]. exists 0. simpl. repeat split; auto; intros j' H; lia.
  - destruct (match_here r (a :: s)) as [m0|] eqn:E.
    + intros [= <-]. exists 0. simpl. repeat split; auto; try lia;
        intros j' H; lia.
    + intros H. apply IH in H as (j & H1 & H2 & H3 & H4).
      exists (S j). simpl. repeat split; auto; try lia;
        intros [|j'] Hj'; simpl; [exact E | apply H4; lia].
Qed.

Lemma search_from_none (r : regex) (s : text) (i : nat) :
  search_from r s i = None -> forall j, match_here r (skipn j s) = None.
Proof.
  revert i; induction s as [|a s IH]; intros i; simpl.
  - destruct (match_here r []) eqn:E; [discriminate|].
    intros _ j. now rewrite skipn_nil.
  - destruct (match_here r (a :: s)) eqn:E; [discriminate|].
    intros H [|j]; simpl; [exact E | eapply IH, H].
Qed.

Lemma re_search_intro (r : regex) (s : text) (j : nat) (m : span) :
  j <= length s -> match_here r (skipn j s) = Some m ->
  (forall j', j' < j -> match_here r (skipn j' s) = None) ->
  re_search r s = Some (MkMatch j m).
Proof.
  intros Hj Hm Hmin. unfold re_search.
  destruct (search_from r s 0) as [[i m1]|] eqn:E.
  - apply search_from_some in E as (j1 & H1 & H2 & H3 & H4). simpl in *.
    subst i. destruct (Nat.lt_trichotomy j j1) as [H|[H|H]].
    + rewrite (H4 j H) in Hm. discriminate.
    + subst j1. congruence.
    + rewrite (Hmin j1 H) in H3. discriminate.
  - rewrite (search_from_none _ _ _ E j) in Hm. discriminate.
Qed.

End MatcherFacts.

(** ** Fragments between an opening and a closing token *)

Section Delimited.

Lemma skipn_exact {A} (l1 l2 : list A) : skipn (length l1) (l1 ++ l2) = l2.
Proof.
  now rewrite skipn_app, skipn_all, Nat.sub_diag.
Qed.

Lemma firstn_exact {A} (l1 l2 : list A) : firstn (length l1) (l1 ++ l2) = l1.
Proof.
  rewrite firstn_app, firstn_all, Nat.sub_diag. simpl. apply app_nil_r.
Qed.

Lemma dot_one_line (t : text) : forallb dot t = true <-> one_line t.
Proof.
  unfold one_line. induction t as [|a t IH]; simpl.
  - split; [intros _ [] | reflexivity].
  - rewrite andb_true_iff, IH. unfold dot.
    rewrite negb_true_iff, Ascii.eqb_neq. split.
    + intros [H1 H2] [H|H]; [now apply H1 | now apply H2].
    + intros H. split; [intros ->; apply H; now left | intros H'; apply H; now right].
Qed.

Lemma closes_unique (close rest mid mid' : text) :
  closes close rest mid -> closes close rest mid' -> mid = mid'.
Proof.
  intros ([post E] & _ & Hmin) ([post' E'] & _ & Hmin').
  assert (Hocc : occurs_at close rest (length mid))
    by (exists mid, post; now split).
  assert (Hocc' : occurs_at close rest (length mid'))
    by (exists mid', post'; now split).
  assert (Hlen : length mid = length mid').
  { destruct (Nat.lt_trichotomy (length mid) (length mid')) as [H|[H|H]];
      [exfalso; now apply (Hmin' _ H) | exact H | exfalso; now apply (Hmin _ H)]. }
  rewrite <- (firstn_exact mid (close ++ post)), <- E, E', Hlen.
  apply firstn_exact.
Qed.

Lemma delimited_iff (open close s : text) (i : nat) (mid : text) :
  delimited open close s i mid <->
  i <= length s /\ starts_with open (skipn i s) = true /\
  closes close (skipn (length open) (skipn i s)) mid.
Proof.
  split.
  - intros ((pre & post & E & Hi) & Hline & Hle & Hocc & Hmin).
    assert (Hskip : skipn (length open) (skipn i s) = mid ++ close ++ post).
    { rewrite E, <- Hi, skipn_exact. apply skipn_exact. }
    assert (Hlen : i + length open <= length s).
    { rewrite E, <- Hi, !length_app. lia. }
    split; [lia|]. split.
    + rewrite E, <- Hi, skipn_exact. apply starts_with_app.
    + split; [now exists post|]. split; [exact Hline|].
      intros j Hj Hc. rewrite skipn_skipn in Hc.
      apply occurs_at_skipn in Hc; [|lia].
      apply (Hmin (length open + i + j)); [lia | lia | exact Hc].
  - intros (Hi & Hopen & (post & E) & Hline & Hmin).
    apply starts_with_skip in Hopen.
    assert (Hs : s = firstn i s ++ open ++ mid ++ close ++ post).
    { rewrite <- E, <- Hopen. symmetry. apply firstn_skipn. }
    assert (Hpre : length (firstn i s) = i) by now apply firstn_length_le.
    assert (Hlen : i + length open <= length s).
    { rewrite Hs, !length_app. lia. }
    split; [exists (firstn i s), post; now split|].
    split; [exact Hline|]. split; [lia|]. split.
    + exists (firstn i s ++ open ++ mid), post. split.
      * rewrite <- !app_assoc. exact Hs.
      * rewrite !length_app. lia.
    + intros j H1 H2 Hc. apply (Hmin (j - (i + length open))); [lia|].
      rewrite skipn_skipn. apply occurs_at_skipn; [lia|].
      now replace (length open + i + (j - (i + length open))) with j by lia.
Qed.

Lemma delimited_unique (open close s : text) (i : nat) (mid mid' : text) :
  delimited open close s i mid -> delimited open close s i mid' -> mid = mid'.
Proof.
  rewrite !delimited_iff. intros (_ & _ & H) (_ & _ & H').
  eapply closes_unique; eassumption.
Qed.

Variable close : text.
Variable r : regex.
Variable m0 : span.
Hypothesis tail :
  forall x, match_here r x = if starts_with close x then Some m0 else None.

Lemma tail_some (rest : text) (k : nat) (m : span) :
  k <= length rest ->
  match_here r (skipn k rest) = Some m -> occurs_at close rest k /\ m = m0.
Proof.
  intros Hk. rewrite tail, occurs_at_iff.
  destruct (starts_with close (skipn k rest)); [|discriminate].
  intros [= <-]. auto.
Qed.

Lemma tail_none (rest : text) (k : nat) :
  k <= length rest ->
  match_here r (skipn k rest) = None -> ~ occurs_at close rest k.
Proof.
  intros Hk. rewrite tail, occurs_at_iff.
  destruct (starts_with close (skipn k rest)); [discriminate|].
  intros _ [_ H]. discriminate.
Qed.

(** The lazy dot-star followed by a closing token takes the text up to the
    first occurrence of the token, when that text is on one line. *)
Lemma lazy_dot_spec (rest : text) (m : span) :
  match_here (LazyStar dot :: r) rest = Some m <->
  exists mid, closes close rest mid /\ m = shift (length mid) m0.
Proof.
  split.
  - intros H. apply lazy_some in H as (k & m' & Hk & Hall & Hm & -> & Hmin).
    apply tail_some in Hm as [Hocc ->]; [|exact Hk].
    exists (firstn k rest). rewrite firstn_length_le by exact Hk.
    split; [|reflexivity]. split; [|split].
    + apply occurs_at_iff in Hocc as [_ Hocc].
      apply starts_with_iff in Hocc as [post Hpost].
      exists post. rewrite <- Hpost. symmetry. apply firstn_skipn.
    + now apply dot_one_line.
    + intros j Hj. rewrite firstn_length_le in Hj by exact Hk.
      apply tail_none; [lia | now apply Hmin].
  - intros (mid & ([post E] & Hline & Hmin) & ->).
    apply lazy_intro.
    + rewrite E, length_app. lia.
    + rewrite E, firstn_exact. now apply dot_one_line.
    + rewrite E, skipn_exact, tail, starts_with_app. reflexivity.
    + intros j Hj. rewrite tail.
      destruct (starts_with close (skipn j rest)) eqn:Es; [|reflexivity].
      exfalso. apply (Hmin j Hj). apply occurs_at_iff. split; [|exact Es].
      rewrite E, length_app. lia.
Qed.

End Delimited.

(** ** Patterns of the shape [open .*? close]

    [pat_8b05] and [pat_config] are an opening literal, a lazy dot-star
    (inside the group, for [pat_config]) and a closing literal. *)

Section OpenLazyClose.

Variables open close : text.
Variables w r : regex.
Variable m0 : span.
Variable f : span -> span.
Hypothesis tail :
  forall x, match_here r x = if starts_with close x then Some m0 else None.
Hypothesis wrap :
  forall x, match_here w x = option_map f (match_here (LazyStar dot :: r) x).

Let pat : regex := map Chr open ++ w.

Lemma match_at_delimited (s : text) (i : nat) (m : span) :
  i <= length s ->
  (match_here pat (skipn i s) = Some m <->
   exists mid, delimited open close s i mid /\ m = span_of open m0 f mid).
Proof.
  intros Hi. unfold pat, span_of. rewrite match_here_chars, wrap. split.
  - destruct (starts_with open (skipn i s)) eqn:Eo; [|discriminate].
    destruct (match_here (LazyStar dot :: r) _) as [m1|] eqn:E; [|discriminate].
    intros [= <-].
    apply (lazy_dot_spec _ _ _ tail) in E as (mid & Hc & ->).
    exists mid. split; [|reflexivity]. apply delimited_iff. auto.
  - intros (mid & Hd & ->). apply delimited_iff in Hd as (_ & -> & Hc).
    assert (E : match_here (LazyStar dot :: r) (skipn (length open) (skipn i s))
                = Some (shift (length mid) m0)).
    { apply (lazy_dot_spec _ _ _ tail). now exists mid. }
    now rewrite E.
Qed.

Lemma delimited_in_range (s : text) (i : nat) (mid : text) :
  delimited open close s i mid -> i <= length s.
Proof.
  intros H. now apply delimited_iff in H.
Qed.

Lemma no_match_not_delimited (s : text) (i : nat) (mid : text) :
  match_here pat (skipn i s) = None -> ~ delimited open close s i mid.
Proof.
  intros E Hd.
  assert (H : match_here pat (skipn i s) = Some (span_of open m0 f mid)).
  { apply match_at_delimited; [eapply delimited_in_range, Hd | now exists mid]. }
  congruence.
Qed.

(** [re.search] on such a pattern: the leftmost delimited fragment, or
    nothing when the document has none. *)
Lemma search_delimited (s : text) :
  match re_search pat s with
  | Some m =>
      exists mid,
        delimited open close s (m_start m) mid /\ m_span m = span_of open m0 f mid /\
        forall j mid', j < m_start m -> ~ delimited open close s j mid'
  | None => forall j mid', ~ delimited open close s j mid'
  end.
Proof.
  unfold re_search. destruct (search_from pat s 0) as [m|] eqn:E.
  - apply search_from_some in E as (j & Hj & Hle & Hm & Hmin).
    simpl in Hj. subst j.
    apply match_at_delimited in Hm as (mid & Hd & Hs); [|exact Hle].
    exists mid. split; [exact Hd | split; [exact Hs |]].
    intros j mid' Hj. apply no_match_not_delimited. now apply Hmin.
  - intros j mid'. apply no_match_not_delimited.
    eapply search_from_none, E.
Qed.

Lemma search_delimited_intro (s : text) (i : nat) (mid : text) :
  delimited open close s i mid ->
  (forall j mid', j < i -> ~ delimited open close s j mid') ->
  re_search pat s = Some (MkMatch i (span_of open m0 f mid)).
Proof.
  intros Hd Hmin. apply re_search_intro.
  - eapply delimited_in_range, Hd.
  - apply match_at_delimited; [eapply delimited_in_range, Hd | now exists mid].
  - intros j Hj.
    destruct (match_here pat (skipn j s)) as [m|] eqn:E; [|reflexivity].
    apply match_at_delimited in E as (mid' & Hd' & _).
    + exfalso. now apply (Hmin j mid').
    + apply delimited_in_range in Hd. lia.
Qed.

Lemma delimited_whole (s : text) (i : nat) (mid : text) :
  delimited open close s i mid ->
  firstn (length open + length mid + length close) (skipn i s)
  = open ++ mid ++ close.
Proof.
  intros ((pre & post & -> & <-) & _). rewrite skipn_exact.
  replace (open ++ mid ++ close ++ post)
    with ((open ++ mid ++ close) ++ post) by now rewrite <- !app_assoc.
  replace (length open + length mid + length close)
    with (length (open ++ mid ++ close)) by (rewrite !length_app; lia).
  apply firstn_exact.
Qed.

Lemma delimited_inner (s : text) (i : nat) (mid : text) :
  delimited open close s i mid ->
  firstn (length mid) (skipn (i + length open) s) = mid.
Proof.
  intros ((pre & post & -> & <-) & _).
  replace (pre ++ open ++ mid ++ close ++ post)
    with ((pre ++ open) ++ mid ++ close ++ post) by now rewrite <- !app_assoc.
  replace (length pre + length open) with (length (pre ++ open))
    by now rewrite length_app.
  rewrite skipn_exact. apply firstn_exact.
Qed.

End OpenLazyClose.

(** ** The lookup-table function and the configuration string *)

Section SimplePatterns.

Lemma pat_8b05_shape :
  pat_8b05 = map Chr open_8b05 ++ LazyStar dot :: map Chr close_8b05.
Proof. reflexivity. Qed.

Lemma pat_config_shape :
  pat_config
  = map Chr open_config
    ++ GOpen :: LazyStar dot :: GClose :: map Chr close_config.
Proof. reflexivity. Qed.

Lemma tail_8b05 (x : text) :
  match_here (map Chr close_8b05) x
  = if starts_with close_8b05 x
    then Some (Span (length close_8b05) None None) else None.
Proof. apply match_here_chars_only. Qed.

Lemma wrap_8b05 (x : text) :
  match_here (LazyStar dot :: map Chr close_8b05) x
  = option_map (fun m => m)
      (match_here (LazyStar dot :: map Chr close_8b05) x).
Proof. now destruct (match_here _ x). Qed.

Lemma tail_config (x : text) :
  match_here (GClose :: map Chr close_config) x
  = if starts_with close_config x
    then Some (Span (length close_config) None (Some 0)) else None.
Proof.
  change (match_here (GClose :: map Chr close_config) x)
    with (option_map (fun m => Span (stop m) (g1_start m) (Some 0))
            (match_here (map Chr close_config) x)).
  rewrite match_here_chars_only.
  now destruct (starts_with close_config x).
Qed.

Lemma wrap_config (x : text) :
  match_here (GOpen :: LazyStar dot :: GClose :: map Chr close_config) x
  = option_map (fun m => Span (stop m) (Some 0) (g1_stop m))
      (match_here (LazyStar dot :: GClose :: map Chr close_config) x).
Proof. reflexivity. Qed.

(** The lookup-table extraction finds the leftmost fragment delimited by
    its two tokens, tokens included, and fails only when there is none. *)
Lemma func_8b05_spec (content : text) :
  match snd (func_8b05 content) with
  | Some frag =>
      exists i mid,
        delimited open_8b05 close_8b05 content i mid /\
        frag = open_8b05 ++ mid ++ close_8b05 /\
        forall j mid', j < i -> ~ delimited open_8b05 close_8b05 content j mid'
  | None => forall j mid', ~ delimited open_8b05 close_8b05 content j mid'
  end.
Proof.
  unfold func_8b05. rewrite pat_8b05_shape.
  pose proof (search_delimited open_8b05 _ _ _ _ (fun m => m)
                tail_8b05 wrap_8b05 content) as H.
  destruct (re_search _ content) as [m|]; cbn [snd found say leave].
  - destruct H as (mid & Hd & Hs & Hmin). exists (m_start m), mid.
    split; [exact Hd | split; [|exact Hmin]].
    unfold group0. rewrite Hs. cbv [span_of shift stop].
    rewrite Nat.add_assoc. now apply delimited_whole.
  - exact H.
Qed.

(** The configuration extraction captures the text between the quotes of
    the leftmost assignment. *)
Lemma config_str_spec (content : text) :
  match snd (config_str content) with
  | Some payload =>
      exists i,
        delimited open_config close_config content i payload /\
        forall j mid', j < i -> ~ delimited open_config close_config content j mid'
  | None => forall j mid', ~ delimited open_config close_config content j mid'
  end.
Proof.
  unfold config_str. rewrite pat_config_shape.
  pose proof (search_delimited open_config _ _ _ _
                (fun m => Span (stop m) (Some 0) (g1_stop m))
                tail_config wrap_config content)
    as H.
  destruct (re_search _ content) as [m|]; cbn [snd found say leave].
  - destruct H as (mid & Hd & Hs & Hmin). exists (m_start m).
    split; [|exact Hmin].
    replace (group1 content m) with mid; [exact Hd|].
    unfold group1. rewrite Hs.
    cbv [span_of shift stop g1_start g1_stop option_map].
    replace (length open_config + (length mid + 0) - (length open_config + 0))
      with (length mid) by lia.
    rewrite Nat.add_0_r. symmetry. now apply delimited_inner with close_config.
  - exact H.
Qed.

End SimplePatterns.

(** ** A run of [extract_decoder] *)

Section Run.

Lemma print_all_run (msgs : list text) (w : world) :
  print_all msgs w = (Next tt, World (fs w) (stdout w ++ msgs)).
Proof.
  revert w; induction msgs as [|msg msgs IH]; intros [f out].
  - unfold print_all, ret. simpl. now rewrite app_nil_r.
  - change (print_all (msg :: msgs)) with (print msg ;; print_all msgs).
    unfold bind, print. rewrite IH. simpl. now rewrite <- app_assoc.
Qed.

Lemma run_block_run {A} (b : Block A) (w : world) :
  run_block b w
  = (match snd b with Some a => Next a | None => Returned end,
     World (fs w) (stdout w ++ fst b)).
Proof.
  unfold run_block, bind. rewrite print_all_run.
  now destruct (snd b).
Qed.

Lemma update_same (f : string -> option file) (path : string) (data : text) :
  update f path data path = Some (Text data).
Proof.
  unfold update. now rewrite String.eqb_refl.
Qed.

Lemma update_other (f : string -> option file) (path q : string) (data : text) :
  q <> path -> update f path data q = f q.
Proof.
  intros H. unfold update. apply String.eqb_neq in H. now rewrite H.
Qed.

(** What a run does, given the document the input file holds. *)
Lemma extract_decoder_run (w : world) (content : text) :
  fs w html_path = Some (Text content) ->
  stdout (snd (extract_decoder w))
  = stdout w ++ diagnostics content
    ++ (match fragments content with Some _ => [success_message] | None => [] end)
  /\ match fragments content with
     | None =>
         fst (extract_decoder w) = Returned /\ fs (snd (extract_decoder w)) = fs w
     | Some (f1, f2, f3, p) =>
         fst (extract_decoder w) = Next tt /\
         fs (snd (extract_decoder w)) output_path
         = Some (Text (assembled f1 f2 f3 p)) /\
         forall q, q <> output_path -> fs (snd (extract_decoder w)) q = fs w q
     end.
Proof.
  intros H. unfold fragments, diagnostics.
  remember (extract_decoder w) as res eqn:E.
  unfold extract_decoder, bind, read_text in E. rewrite H in E.
  cbv beta iota zeta in E. rewrite run_block_run in E.
  destruct (snd (func_8b05 content)) as [f1|];
    [|subst res; cbn [fst snd stdout fs]; rewrite !app_nil_r; auto].
  cbv beta iota zeta in E. rewrite run_block_run in E.
  destruct (snd (func_b4a0 content)) as [f2|];
    [|subst res; cbn [fst snd stdout fs]; rewrite !app_nil_r, <- !app_assoc; auto].
  cbv beta iota zeta in E. rewrite run_block_run in E.
  destruct (snd (shuffle_iife content)) as [f3|];
    [|subst res; cbn [fst snd stdout fs]; rewrite !app_nil_r, <- !app_assoc; auto].
  cbv beta iota zeta in E. rewrite run_block_run in E.
  destruct (snd (config_str content)) as [p|];
    [|subst res; cbn [fst snd stdout fs]; rewrite !app_nil_r, <- !app_assoc; auto].
  unfold open_w, write, print in E. cbv beta iota zeta in E.
  cbn [fst snd stdout fs] in E. rewrite !update_same in E.
  subst res. cbn [fst snd stdout fs].
  split; [now rewrite <- !app_assoc|]. split; [reflexivity|]. split.
  - rewrite update_same. unfold assembled. cbn [app]. now rewrite <- !app_assoc.
  - intros q Hq. now rewrite !update_other by exact Hq.
Qed.

End Run.

(** ** The positional fallbacks *)

Section Fallback.

Lemma occurrences_from_spec (sub s : text) (i k : nat) :
  In k (occurrences_from sub s i) <-> exists j, k = i + j /\ occurs_at sub s j.
Proof.
  revert i; induction s as [|a s IH]; intros i; simpl; rewrite in_app_iff.
  - split.
    + intros [H|[]]. destruct (starts_with sub []) eqn:E; [|destruct H].
      destruct H as [<-|[]]. exists 0. split; [lia|].
      apply occurs_at_iff. simpl. auto.
    + intros (j & -> & H). left. apply occurs_at_iff in H as [Hj H].
      simpl in Hj. replace j with 0 in * by lia. simpl in H.
      rewrite H. left. lia.
  - rewrite IH. split.
    + intros [H|(j & -> & H)].
      * destruct (starts_with sub (a :: s)) eqn:E; [|destruct H].
        destruct H as [<-|[]]. exists 0. split; [lia|].
        apply occurs_at_iff. simpl. split; [lia | exact E].
      * exists (S j). split; [lia | now apply occurs_at_cons].
    + intros ([|j] & -> & H).
      * left. apply occurs_at_iff in H as [_ H]. simpl in H.
        rewrite H. left. lia.
      * right. exists j. split; [lia | now apply occurs_at_cons in H].
Qed.

Lemma occurrences_spec (sub s : text) (k : nat) :
  occurs_at sub s k <-> In k (occurrences sub s).
Proof.
  unfold occurrences. rewrite occurrences_from_spec. split.
  - intros H. now exists k.
  - intros (j & -> & H). exact H.
Qed.

Lemma neq_nat (k : nat) : neq (Z.of_nat k) (-1) = true.
Proof.
  unfold neq. apply negb_true_iff, Z.eqb_neq. lia.
Qed.

Lemma find_spec0 (s sub : text) :
  (exists k, find s sub 0 = Z.of_nat k /\ first_from sub s 0 k)
  \/ (find s sub 0 = (-1)%Z /\ forall j, ~ occurs_at sub s j).
Proof.
  destruct (find_spec s sub 0) as [H|[H1 H2]]; [now left | right].
  split; [exact H1|]. intros j. apply H2. lia.
Qed.

(** The slice up to a marker found from position [i] on is the text between
    position [i] and the marker. *)
Lemma slice_between (content marker : text) (i j : nat) :
  first_from marker content i j ->
  exists pre post,
    content = pre ++ slice content (Z.of_nat i) (Z.of_nat j) ++ marker ++ post
    /\ length pre = i
    /\ length pre + length (slice content (Z.of_nat i) (Z.of_nat j)) = j.
Proof.
  intros (Hij & (pre' & post & E & Hj) & _).
  assert (Hlen : j <= length content) by (rewrite E, length_app; lia).
  rewrite slice_nat by assumption.
  assert (Hs : skipn i content = skipn i pre' ++ marker ++ post).
  { rewrite E, skipn_app. replace (i - length pre') with 0 by lia. reflexivity. }
  assert (Hf : firstn (j - i) (skipn i content) = skipn i pre').
  { rewrite Hs. replace (j - i) with (length (skipn i pre'))
      by (rewrite length_skipn; lia).
    apply firstn_exact. }
  exists (firstn i content), post. rewrite Hf. split; [|split].
  - rewrite <- Hs. symmetry. apply firstn_skipn.
  - apply firstn_length_le. lia.
  - rewrite firstn_length_le, length_skipn by lia. lia.
Qed.

(** The marker does not occur inside the text that precedes its first
    occurrence. *)
Lemma no_marker_inside (content marker pre frag post : text) (i j : nat) :
  first_from marker content i j -> 0 < length marker ->
  content = pre ++ frag ++ marker ++ post ->
  length pre = i -> length pre + length frag = j ->
  forall k, ~ occurs_at marker frag k.
Proof.
  intros (_ & _ & Hmin) Hpos E Hi Hj k (a & b & Ef & Hk).
  apply (Hmin (i + k)); [lia | |].
  - rewrite <- Hj, Ef, !length_app. lia.
  - exists (pre ++ a), (b ++ marker ++ post). split.
    + rewrite E, Ef, <- !app_assoc. reflexivity.
    + rewrite length_app. lia.
Qed.

(** A match of a pattern that starts with literal characters sits on an
    occurrence of them. *)
Lemma search_prefix_occurs (p : text) (r : regex) (s : text) (m : Match) :
  re_search (map Chr p ++ r) s = Some m -> occurs_at p s (m_start m).
Proof.
  intros H. apply search_from_some in H as (j & Hj & Hle & Hm & _).
  simpl in Hj. subst j. rewrite match_here_chars in Hm.
  apply occurs_at_iff. split; [exact Hle|].
  now destruct (starts_with p (skipn (m_start m) s)).
Qed.

End Fallback.

Section PositionalFacts.

Lemma func_b4a0_fallback (content : text) :
  re_search pat_b4a0 content = None ->
  re_search pat_b4a0_alt content = None ->
  func_b4a0 content
  = positional content start_b4a0 start_shuffle
      (say "Could not find end of _0xb4a0" leave)
      (say "Could not find _0xb4a0 function" leave).
Proof.
  intros Ea Eb. unfold func_b4a0. rewrite Ea, Eb. reflexivity.
Qed.

Lemma shuffle_iife_fallback (content : text) :
  re_search pat_shuffle content = None ->
  shuffle_iife content
  = say "Could not find shuffle IIFE"
      (positional content start_shuffle next_statement
         (say "Could not find end of shuffle IIFE" leave) leave).
Proof.
  intros E. unfold shuffle_iife. rewrite E. reflexivity.
Qed.

Lemma find_first_from (s sub : text) (a k : nat) :
  find s sub (Z.of_nat a) = Z.of_nat k -> first_from sub s a k.
Proof.
  intros E. destruct (find_spec s sub a) as [(k' & E' & H)|[E' _]].
  - rewrite E in E'. apply Nat2Z.inj in E'. now subst k'.
  - rewrite E in E'. lia.
Qed.

Lemma find_first0 (s sub : text) (k : nat) :
  first_from sub s 0 k -> find s sub 0 = Z.of_nat k.
Proof. apply (find_first (a := 0)). Qed.

Lemma find_absent0 (s sub : text) :
  (forall j, ~ occurs_at sub s j) -> find s sub 0 = (-1)%Z.
Proof.
  intros H. apply (find_absent (a := 0)). intros j _. apply H.
Qed.

Variables content start marker : text.
Variables no_end no_start : Block text.

Lemma positional_found (i j : nat) :
  first_from start content 0 i -> first_from marker content i j ->
  positional content start marker no_end no_start
  = found (slice content (Z.of_nat i) (Z.of_nat j)).
Proof.
  intros Hi Hj. unfold positional.
  rewrite (find_first0 Hi), neq_nat, (find_first Hj), neq_nat.
  reflexivity.
Qed.

Lemma positional_no_start :
  (forall i, ~ occurs_at start content i) ->
  positional content start marker no_end no_start = no_start.
Proof.
  intros H. unfold positional.
  rewrite (find_absent0 H). reflexivity.
Qed.

Lemma positional_no_end (i : nat) :
  first_from start content 0 i ->
  (forall j, i <= j -> ~ occurs_at marker content j) ->
  positional content start marker no_end no_start = no_end.
Proof.
  intros Hi H. unfold positional.
  rewrite (find_first0 Hi), neq_nat, (find_absent H). reflexivity.
Qed.

(** When the fallback finds a fragment, it is the text from the first
    occurrence of the start token up to the first occurrence of the marker
    after it, and the marker does not occur in it. *)
Lemma positional_some (frag : text) :
  0 < length marker -> snd no_end = None -> snd no_start = None ->
  snd (positional content start marker no_end no_start) = Some frag ->
  exists pre post,
    content = pre ++ frag ++ marker ++ post /\
    first_from start content 0 (length pre) /\
    first_from marker content (length pre) (length pre + length frag) /\
    forall k, ~ occurs_at marker frag k.
Proof.
  intros Hpos Hne Hns. unfold positional.
  destruct (find_spec0 content start) as [(i & Ei & Hi)|[Ei _]];
    rewrite Ei; [rewrite neq_nat | change (neq (-1) (-1)) with false; cbv iota; now rewrite Hns].
  destruct (find_spec content marker i) as [(j & Ej & Hj)|[Ej _]];
    rewrite Ej; [rewrite neq_nat | change (neq (-1) (-1)) with false; cbv iota; now rewrite Hne].
  cbn [snd found]. intros [= <-].
  destruct (slice_between Hj) as (pre & post & E & Hlen & Hlen').
  exists pre, post. rewrite Hlen', Hlen.
  split; [exact E | split; [exact Hi | split; [exact Hj |]]].
  eapply no_marker_inside; eassumption.
Qed.

End PositionalFacts.

Section DecoderFacts.

Lemma no_start_no_match (content : text) :
  (forall i, ~ occurs_at start_b4a0 content i) ->
  re_search pat_b4a0 content = None /\ re_search pat_b4a0_alt content = None.
Proof.
  intros H. split.
  - destruct (re_search pat_b4a0 content) as [m|] eqn:E; [|reflexivity].
    exfalso. apply (H (m_start m)).
    change pat_b4a0 with (map Chr start_b4a0 ++ skipn 16 pat_b4a0) in E.
    eapply search_prefix_occurs, E.
  - destruct (re_search pat_b4a0_alt content) as [m|] eqn:E; [|reflexivity].
    exfalso. apply (H (m_start m)).
    change pat_b4a0_alt with (map Chr start_b4a0 ++ skipn 16 pat_b4a0_alt) in E.
    eapply search_prefix_occurs, E.
Qed.

Lemma failed_run (w : world) (content : text) :
  fs w html_path = Some (Text content) ->
  snd (func_8b05 content) = None \/ snd (func_b4a0 content) = None \/
  snd (shuffle_iife content) = None \/ snd (config_str content) = None ->
  fst (extract_decoder w) = Returned /\ fs (snd (extract_decoder w)) = fs w.
Proof.
  intros H Hf. destruct (extract_decoder_run w H) as [_ Hrun].
  replace (fragments content) with (@None (text * text * text * text)) in Hrun;
    [exact Hrun|].
  unfold fragments.
  destruct (snd (func_8b05 content)), (snd (func_b4a0 content)),
    (snd (shuffle_iife content)), (snd (config_str content)); try reflexivity.
  destruct Hf as [F|[F|[F|F]]]; discriminate.
Qed.

Lemma no_occurrence (sub s : text) :
  occurrences sub s = [] -> forall i, ~ occurs_at sub s i.
Proof.
  intros E i H. apply occurrences_spec in H. now rewrite E in H.
Qed.

End DecoderFacts.

Section Messages.

Lemma func_8b05_cases (content : text) :
  (exists f, func_8b05 content = found f)
  \/ func_8b05 content = say "Could not find _0x8b05 function" leave.
Proof.
  unfold func_8b05. destruct (re_search pat_8b05 content) as [m|].
  - left. now exists (group0 content m).
  - now right.
Qed.

Lemma positional_cases (content start marker : text)
    (no_end no_start : Block text) :
  (exists f, positional content start marker no_end no_start = found f)
  \/ positional content start marker no_end no_start = no_end
  \/ positional content start marker no_end no_start = no_start.
Proof.
  unfold positional.
  destruct (neq (find content start 0) (-1)); [|now right; right].
  destruct (neq (find content marker (find content start 0)) (-1)).
  - left. now eexists.
  - now right; left.
Qed.

Lemma func_b4a0_cases (content : text) :
  (exists f, func_b4a0 content = found f)
  \/ func_b4a0 content = say "Could not find end of _0xb4a0" leave
  \/ func_b4a0 content = say "Could not find _0xb4a0 function" leave.
Proof.
  destruct (re_search pat_b4a0 content) as [m|] eqn:Ea.
  { left. exists (group0 content m). unfold func_b4a0. now rewrite Ea. }
  destruct (re_search pat_b4a0_alt content) as [m|] eqn:Eb.
  { left. exists (group0 content m). unfold func_b4a0. now rewrite Ea, Eb. }
  rewrite func_b4a0_fallback by assumption. apply positional_cases.
Qed.

Lemma shuffle_iife_cases (content : text) :
  (re_search pat_shuffle content <> None /\
   exists f, shuffle_iife content = found f)
  \/ (re_search pat_shuffle content = None /\
      ((exists f, shuffle_iife content
                  = say "Could not find shuffle IIFE" (found f))
       \/ shuffle_iife content
          = say "Could not find shuffle IIFE"
              (say "Could not find end of shuffle IIFE" leave)
       \/ shuffle_iife content = say "Could not find shuffle IIFE" leave)).
Proof.
  destruct (re_search pat_shuffle content) as [m|] eqn:E.
  - left. split; [discriminate|]. exists (group0 content m).
    unfold shuffle_iife. now rewrite E.
  - right. split; [reflexivity|]. rewrite shuffle_iife_fallback by assumption.
    destruct (positional_cases content start_shuffle next_statement
                (say "Could not find end of shuffle IIFE" leave) leave)
      as [[f ->]|[->| ->]]; [left; now exists f | now right; left | now right; right].
Qed.

Lemma config_str_cases (content : text) :
  (exists p, config_str content = found p)
  \/ config_str content = say "Could not find config string" leave.
Proof.
  unfold config_str. destruct (re_search pat_config content) as [m|].
  - left. now exists (group1 content m).
  - now right.
Qed.

Lemma success_not_diagnostic : ~ In success_message failure_diagnostics.
Proof.
  intros H. vm_compute in H.
  repeat (destruct H as [H|H]; [discriminate H|]). exact H.
Qed.

Lemma missing_input (w : world) :
  fs w html_path = None ->
  extract_decoder w = (Raised (FileNotFoundError html_path), w).
Proof.
  intros H. unfold extract_decoder, bind, read_text. now rewrite H.
Qed.

Lemma undecodable_input (w : world) :
  fs w html_path = Some Undecodable ->
  extract_decoder w = (Raised (UnicodeDecodeError html_path), w).
Proof.
  intros H. unfold extract_decoder, bind, read_text. now rewrite H.
Qed.

End Messages.

Section LineFacts.

Lemma delimited_occurs (open close s : text) (i : nat) (mid : text) :
  delimited open close s i mid -> occurs_at open s i.
Proof.
  intros ((pre & post & E & Hi) & _). now exists pre, (mid ++ close ++ post).
Qed.

Lemma delimited_close_occurs (open close s : text) (i : nat) (mid : text) :
  delimited open close s i mid ->
  occurs_at close s (i + length open + length mid).
Proof.
  intros (_ & _ & _ & H & _). exact H.
Qed.

Lemma delimited_char (open close s : text) (i : nat) (mid : text) (k : nat)
    (c : ascii) :
  delimited open close s i mid ->
  i + length open <= k -> k < i + length open + length mid ->
  nth_error s k = Some c -> In c mid.
Proof.
  intros ((pre & post & E & Hi) & _) Hlo Hhi Hk. subst s i.
  rewrite nth_error_app2 in Hk by lia.
  rewrite nth_error_app2 in Hk by lia.
  rewrite nth_error_app1 in Hk by lia.
  eapply nth_error_In, Hk.
Qed.

Lemma delimited_leftmost_unique (open close s : text) (i i' : nat)
    (mid mid' : text) :
  delimited open close s i mid ->
  (forall j m, j < i -> ~ delimited open close s j m) ->
  delimited open close s i' mid' ->
  (forall j m, j < i' -> ~ delimited open close s j m) ->
  i = i' /\ mid = mid'.
Proof.
  intros Hd Hmin Hd' Hmin'.
  assert (i = i') as <-.
  { destruct (Nat.lt_trichotomy i i') as [H|[H|H]]; [|exact H|].
    - exfalso. eapply Hmin'; eassumption.
    - exfalso. eapply Hmin; eassumption. }
  split; [reflexivity|]. eapply delimited_unique; eassumption.
Qed.

End LineFacts.

(** ** The matcher and the texts a pattern denotes *)

Section Language.

Lemma plus_unfold (cls : ascii -> bool) (r : regex) (s : text) :
  match_here (GreedyPlus cls :: r) s
  = match s with
    | a :: s' => if cls a then option_map (shift 1) (greedy_tail cls r s')
                 else None
    | [] => None
    end.
Proof. destruct s; reflexivity. Qed.

Lemma firstn_add_skipn {A} (k n : nat) (l : list A) :
  firstn (k + n) l = firstn k l ++ firstn n (skipn k l).
Proof.
  revert l; induction k as [|k IH]; intros [|a l]; simpl;
    try reflexivity.
  - now rewrite firstn_nil.
  - now rewrite IH.
Qed.

Lemma greedy_tail_some (cls : ascii -> bool) (r : regex) (s : text) (m : span) :
  greedy_tail cls r s = Some m ->
  exists k m',
    k <= length s /\ forallb cls (firstn k s) = true /\
    match_here r (skipn k s) = Some m' /\ m = shift k m'.
Proof.
  revert m; induction s as [|a s IH]; intros m; simpl.
  - intros H. exists 0, m. rewrite shift_0. auto.
  - assert (Hstop : match_here r (a :: s) = Some m ->
                    exists k m',
                      k <= S (length s) /\
                      forallb cls (firstn k (a :: s)) = true /\
                      match_here r (skipn k (a :: s)) = Some m' /\
                      m = shift k m').
    { intros H. exists 0, m. rewrite shift_0. simpl. repeat split; auto; lia. }
    destruct (cls a) eqn:Ha; [|exact Hstop].
    destruct (greedy_tail cls r s) as [m1|]; [|exact Hstop].
    intros [= <-]. destruct (IH m1 eq_refl) as (k & m' & Hk & Hall & Hm & ->).
    exists (S k), m'. simpl. rewrite Ha, Hall, shift_shift.
    repeat split; auto; lia.
Qed.

(** What the matcher returns is a prefix of the text that the pattern
    denotes. *)
Lemma match_here_sound (r : regex) (s : text) (m : span) :
  match_here r s = Some m ->
  stop m <= length s /\ matches r (firstn (stop m) s).
Proof.
  revert s m; induction r as [|it r IH]; intros s m.
  - simpl. intros [= <-]. simpl. split; [lia | constructor].
  - destruct it as [c|cls|cls| |].
    + destruct s as [|a s]; [discriminate|].
      change (match_here (Chr c :: r) (a :: s))
        with (if Ascii.eqb c a then option_map (shift 1) (match_here r s)
              else None).
      destruct (Ascii.eqb_spec c a) as [<-|]; [|discriminate].
      destruct (match_here r s) as [m'|] eqn:E; [|discriminate].
      intros [= <-]. destruct (IH _ _ E) as [Hle Hm].
      simpl. split; [lia | now constructor].
    + intros H. apply lazy_some in H as (k & m' & Hk & Hall & Hm & -> & _).
      destruct (IH _ _ Hm) as [Hle Hin]. rewrite length_skipn in Hle.
      cbn [shift stop]. split; [lia|].
      rewrite firstn_add_skipn. now constructor.
    + rewrite plus_unfold. destruct s as [|a s]; [discriminate|].
      destruct (cls a) eqn:Ha; [|discriminate].
      destruct (greedy_tail cls r s) as [m1|] eqn:E; [|discriminate].
      intros [= <-].
      apply greedy_tail_some in E as (k & m' & Hk & Hall & Hm & ->).
      destruct (IH _ _ Hm) as [Hle Hin]. rewrite length_skipn in Hle.
      rewrite shift_shift. cbn [shift stop length]. split; [lia|].
      change (1 + k + stop m') with (S (k + stop m')).
      cbn [firstn]. rewrite firstn_add_skipn. now constructor.
    + change (match_here (GOpen :: r) s)
        with (option_map (fun m => Span (stop m) (Some 0) (g1_stop m))
                (match_here r s)).
      destruct (match_here r s) as [m'|] eqn:E; [|discriminate].
      intros [= <-]. destruct (IH _ _ E) as [Hle Hm]. cbn [stop].
      split; [exact Hle | now constructor].
    + change (match_here (GClose :: r) s)
        with (option_map (fun m => Span (stop m) (g1_start m) (Some 0))
                (match_here r s)).
      destruct (match_here r s) as [m'|] eqn:E; [|discriminate].
      intros [= <-]. destruct (IH _ _ E) as [Hle Hm]. cbn [stop].
      split; [exact Hle | now constructor].
Qed.

Lemma lazy_complete (cls : ascii -> bool) (r : regex) (l rest : text) :
  forallb cls l = true ->
  match_here r rest <> None ->
  match_here (LazyStar cls :: r) (l ++ rest) <> None.
Proof.
  intros Hall Hr. induction l as [|a l IH].
  - rewrite lazy_unfold. cbn [app].
    destruct (match_here r rest); [discriminate | contradiction].
  - simpl in Hall. apply andb_true_iff in Hall as [Ha Hall].
    rewrite <- app_comm_cons, lazy_unfold.
    destruct (match_here r (a :: l ++ rest)); [discriminate|].
    rewrite Ha.
    destruct (match_here (LazyStar cls :: r) (l ++ rest));
      [discriminate | now apply IH].
Qed.

Lemma greedy_tail_complete (cls : ascii -> bool) (r : regex) (l rest : text) :
  forallb cls l = true ->
  match_here r rest <> None ->
  greedy_tail cls r (l ++ rest) <> None.
Proof.
  intros Hall Hr. induction l as [|a l IH].
  - simpl. destruct rest as [|b rest]; simpl; [exact Hr|].
    destruct (cls b); [|exact Hr].
    destruct (greedy_tail cls r rest); [discriminate | exact Hr].
  - simpl in Hall. apply andb_true_iff in Hall as [Ha Hall].
    simpl. rewrite Ha.
    destruct (greedy_tail cls r (l ++ rest));
      [discriminate | exfalso; now apply IH].
Qed.

(** The backtracking is complete: a text with a prefix that the pattern
    denotes has a match. *)
Lemma match_here_complete (r : regex) (t : text) :
  matches r t -> forall rest, match_here r (t ++ rest) <> None.
Proof.
  induction 1 as [|c r t _ IH|cls r l t Hall _ IH|cls r a l t Ha Hall _ IH
                  |r t _ IH|r t _ IH]; intros rest.
  - discriminate.
  - change (match_here (Chr c :: r) ((c :: t) ++ rest))
      with (if Ascii.eqb c c then option_map (shift 1) (match_here r (t ++ rest))
            else None).
    rewrite Ascii.eqb_refl. specialize (IH rest).
    destruct (match_here r (t ++ rest)); [discriminate | contradiction].
  - rewrite <- app_assoc. apply lazy_complete; auto.
  - rewrite plus_unfold. simpl. rewrite Ha, <- app_assoc.
    pose proof (greedy_tail_complete cls r l (t ++ rest) Hall (IH rest)) as H.
    destruct (greedy_tail cls r (l ++ t ++ rest)); [discriminate | contradiction].
  - change (match_here (GOpen :: r) (t ++ rest))
      with (option_map (fun m => Span (stop m) (Some 0) (g1_stop m))
              (match_here r (t ++ rest))).
    specialize (IH rest).
    destruct (match_here r (t ++ rest)); [discriminate | contradiction].
  - change (match_here (GClose :: r) (t ++ rest))
      with (option_map (fun m => Span (stop m) (g1_start m) (Some 0))
              (match_here r (t ++ rest))).
    specialize (IH rest).
    destruct (match_here r (t ++ rest)); [discriminate | contradiction].
Qed.

(** The text of a match found by [re.search] is a part of the document, at
    the position of the match, and the pattern denotes it. *)
Lemma search_sound (r : regex) (s : text) (m : Match) :
  re_search r s = Some m ->
  matches r (group0 s m) /\
  exists pre post, s = pre ++ group0 s m ++ post /\ length pre = m_start m.
Proof.
  intros H. apply search_from_some in H as (j & Hj & Hle & Hm & _).
  simpl in Hj. subst j. apply match_here_sound in Hm as [Hstop Hm].
  unfold group0. split; [exact Hm|].
  exists (firstn (m_start m) s),
    (skipn (stop (m_span m)) (skipn (m_start m) s)).
  split; [now rewrite !firstn_skipn | now apply firstn_length_le].
Qed.

(** [re.search] finds a match exactly when the pattern denotes some part of
    the document. *)
Lemma search_complete (r : regex) (s : text) :
  re_search r s <> None <-> exists t, part_of t s /\ matches r t.
Proof.
  split.
  - destruct (re_search r s) as [m|] eqn:E; [|contradiction]. intros _.
    destruct (search_sound _ _ E) as (Hm & pre & post & Hs & _).
    exists (group0 s m). split; [now exists pre, post | exact Hm].
  - intros (t & (pre & post & ->) & Hm) E.
    apply search_from_none with (j := length pre) in E.
    rewrite skipn_exact in E. now apply (match_here_complete Hm post).
Qed.

End Language.

(** ** What each extraction reports *)

Section Outcomes.

Lemma positional_none (content start marker : text)
    (no_end no_start : Block text) :
  snd no_end = None -> snd no_start = None ->
  snd (positional content start marker no_end no_start) = None ->
  ((forall i, ~ occurs_at start content i) /\
   positional content start marker no_end no_start = no_start)
  \/
  ((exists i, first_from start content 0 i /\
              forall j, i <= j -> ~ occurs_at marker content j) /\
   positional content start marker no_end no_start = no_end).
Proof.
  intros Hne Hns H.
  destruct (find_spec0 content start) as [(i & Ei & Hi)|[Ei Hno]].
  - destruct (find_spec content marker i) as [(j & Ej & Hj)|[Ej Hnone]].
    + rewrite (positional_found _ _ Hi Hj) in H. discriminate H.
    + right. split; [now exists i | now apply positional_no_end with i].
  - left. split; [exact Hno | now apply positional_no_start].
Qed.

Lemma func_8b05_outcomes (content : text) :
  (exists f, func_8b05 content = found f)
  \/ ((forall j mid, ~ delimited open_8b05 close_8b05 content j mid) /\
      func_8b05 content = say "Could not find _0x8b05 function" leave).
Proof.
  destruct (func_8b05_cases content) as [[f E]|E]; [left; now exists f|].
  right. split; [|exact E]. pose proof (func_8b05_spec content) as H.
  now rewrite E in H.
Qed.

Lemma func_b4a0_outcomes (content : text) :
  (exists f, func_b4a0 content = found f)
  \/ ((forall i, ~ occurs_at start_b4a0 content i) /\
      func_b4a0 content = say "Could not find _0xb4a0 function" leave)
  \/ ((exists i, first_from start_b4a0 content 0 i /\
                 forall j, i <= j -> ~ occurs_at start_shuffle content j) /\
      func_b4a0 content = say "Could not find end of _0xb4a0" leave).
Proof.
  destruct (re_search pat_b4a0 content) as [m|] eqn:Ea.
  { left. exists (group0 content m). unfold func_b4a0. now rewrite Ea. }
  destruct (re_search pat_b4a0_alt content) as [m|] eqn:Eb.
  { left. exists (group0 content m). unfold func_b4a0. now rewrite Ea, Eb. }
  rewrite func_b4a0_fallback by assumption.
  destruct (positional_cases content start_b4a0 start_shuffle
              (say "Could not find end of _0xb4a0" leave)
              (say "Could not find _0xb4a0 function" leave))
    as [[f E]|E]; [left; now exists f|].
  right.
  destruct (positional_none content start_b4a0 start_shuffle
              (say "Could not find end of _0xb4a0" leave)
              (say "Could not find _0xb4a0 function" leave))
    as [[Hno E']|[Hex E']]; try reflexivity.
  - destruct E as [E|E]; now rewrite E.
  - now left.
  - now right.
Qed.

Lemma shuffle_iife_outcomes (content : text) :
  (re_search pat_shuffle content <> None /\
   exists f, shuffle_iife content = found f)
  \/ (re_search pat_shuffle content = None /\
      exists f, shuffle_iife content
                = say "Could not find shuffle IIFE" (found f))
  \/ ((forall i, ~ occurs_at start_shuffle content i) /\
      shuffle_iife content = say "Could not find shuffle IIFE" leave)
  \/ ((exists i, first_from start_shuffle content 0 i /\
                 forall j, i <= j -> ~ occurs_at next_statement content j) /\
      shuffle_iife content
      = say "Could not find shuffle IIFE"
          (say "Could not find end of shuffle IIFE" leave)).
Proof.
  destruct (re_search pat_shuffle content) as [m|] eqn:E.
  { left. split; [discriminate|]. exists (group0 content m).
    unfold shuffle_iife. now rewrite E. }
  right. rewrite shuffle_iife_fallback by assumption.
  destruct (positional_cases content start_shuffle next_statement
              (say "Could not find end of shuffle IIFE" leave) leave)
    as [[f Ef]|Ef]; [left; split; [reflexivity|]; exists f; now rewrite Ef|].
  right.
  destruct (positional_none content start_shuffle next_statement
              (say "Could not find end of shuffle IIFE" leave) leave)
    as [[Hno E']|[Hex E']]; try reflexivity.
  - destruct Ef as [Ef|Ef]; now rewrite Ef.
  - left. split; [exact Hno | now rewrite E'].
  - right. split; [exact Hex | now rewrite E'].
Qed.

Lemma config_str_outcomes (content : text) :
  (exists p, config_str content = found p)
  \/ ((forall j mid, ~ delimited open_config close_config content j mid) /\
      config_str content = say "Could not find config string" leave).
Proof.
  destruct (config_str_cases content) as [[f E]|E]; [left; now exists f|].
  right. split; [|exact E]. pose proof (config_str_spec content) as H.
  now rewrite E in H.
Qed.

End Outcomes.

(** * The claims of the specification *)

(** C1. All-or-nothing: when the input document is one on which any of the
    four extractions (lookup-table function, decoder function, shuffle
    routine, configuration string) fails, [extract_decoder] returns and every
    file, the output file included, is as it was: not created, not modified.
    A file changes only when all four extractions succeed. *)
Theorem all_or_nothing (w : world) (content : text) :
  fs w html_path = Some (Text content) ->
  (snd (func_8b05 content) = None \/ snd (func_b4a0 content) = None \/
   snd (shuffle_iife content) = None \/ snd (config_str content) = None ->
   fst (extract_decoder w) = Returned /\ fs (snd (extract_decoder w)) = fs w)
  /\
  ((exists q, fs (snd (extract_decoder w)) q <> fs w q) ->
   exists f1 f2 f3 p,
     snd (func_8b05 content) = Some f1 /\ snd (func_b4a0 content) = Some f2 /\
     snd (shuffle_iife content) = Some f3 /\ snd (config_str content) = Some p).
Proof.
  intros H. destruct (extract_decoder_run w H) as [_ Hrun].
  unfold fragments in Hrun.
  destruct (snd (func_8b05 content)) as [f1|] eqn:E1;
    [|split; [intros _; exact Hrun | intros [q Hq]; destruct Hrun as [_ Hfs];
                                     now rewrite Hfs in Hq]].
  destruct (snd (func_b4a0 content)) as [f2|] eqn:E2;
    [|split; [intros _; exact Hrun | intros [q Hq]; destruct Hrun as [_ Hfs];
                                     now rewrite Hfs in Hq]].
  destruct (snd (shuffle_iife content)) as [f3|] eqn:E3;
    [|split; [intros _; exact Hrun | intros [q Hq]; destruct Hrun as [_ Hfs];
                                     now rewrite Hfs in Hq]].
  destruct (snd (config_str content)) as [p|] eqn:E4;
    [|split; [intros _; exact Hrun | intros [q Hq]; destruct Hrun as [_ Hfs];
                                     now rewrite Hfs in Hq]].
  split.
  - intros [F|[F|[F|F]]]; discriminate.
  - intros _. now exists f1, f2, f3, p.
Qed.

Lemma all_or_nothing_witness :
  fst (extract_decoder (world_of doc_no_config)) = Returned /\
  fs (snd (extract_decoder (world_of doc_no_config))) output_path
  = Some (Text (txt "old content")).
Proof.
  destruct (all_or_nothing (world_of doc_no_config) (content := doc_no_config)
              eq_refl) as [H _].
  destruct H as [H1 H2].
  - right; right; right. vm_compute. reflexivity.
  - split; [exact H1 | rewrite H2; reflexivity].
Defined.

(** C2. When all four extractions succeed, the output file holds exactly the
    lookup-table fragment, a newline, the decoder fragment, a newline, the
    shuffle fragment, a newline, the line [const configString = '<payload>';],
    a newline, and the line [module.exports = { _0xb4a0, configString };]
    with its newline, in that order. *)
Theorem output_document (w : world) (content f1 f2 f3 p : text) :
  fs w html_path = Some (Text content) ->
  snd (func_8b05 content) = Some f1 ->
  snd (func_b4a0 content) = Some f2 ->
  snd (shuffle_iife content) = Some f3 ->
  snd (config_str content) = Some p ->
  fs (snd (extract_decoder w)) output_path
  = Some (Text (f1 ++ nl ++ f2 ++ nl ++ f3 ++ nl
                ++ txt "const configString = '" ++ p ++ txt "';" ++ nl
                ++ txt "module.exports = { _0xb4a0, configString };" ++ nl)).
Proof.
  intros H E1 E2 E3 E4. destruct (extract_decoder_run w H) as [_ Hrun].
  unfold fragments in Hrun. rewrite E1, E2, E3, E4 in Hrun.
  destruct Hrun as (_ & Hout & _). exact Hout.
Qed.

Lemma output_document_witness :
  fs (snd (extract_decoder (world_of doc_full))) output_path
  = Some (Text
            (txt "function _0x8b05(){return [1,2,3];return _0x8b05();}" ++ nl
             ++ txt "function _0xb4a0(_0x447697,_0x51a3a4){body;},_0xb4a0(_0x447697,_0x51a3a4);}" ++ nl
             ++ txt "(function(_0x9dcbec,_0x4ab1b0){x}(_0x8b05,0x58bbd));" ++ nl
             ++ txt "const configString = '" ++ txt "abc123" ++ txt "';" ++ nl
             ++ txt "module.exports = { _0xb4a0, configString };" ++ nl)).
Proof.
  apply (output_document (world_of doc_full) (content := doc_full));
    vm_compute; reflexivity.
Defined.

(** C3. The decoder fragment is settled by the first of three strategies that
    matches, tried in this order: the pattern with the recursive
    self-invocation end token, the pattern with the indexed-return end token,
    the positional scan from the start token to the marker
    [(function(_0x9dcbec].  A match of the precise pattern decides the
    fragment whatever the positional scan would give, and there are documents
    where the two differ; when neither pattern matches, the scan yields the
    text between the first start token and the first marker after it. *)
Theorem decoder_strategy_order :
  (forall content : text,
      (forall m, re_search pat_b4a0 content = Some m ->
                 func_b4a0 content = found (group0 content m)) /\
      (re_search pat_b4a0 content = None ->
       forall m, re_search pat_b4a0_alt content = Some m ->
                 func_b4a0 content = found (group0 content m)) /\
      (re_search pat_b4a0 content = None ->
       re_search pat_b4a0_alt content = None ->
       forall i j,
         first_from (txt "function _0xb4a0") content 0 i ->
         first_from (txt "(function(_0x9dcbec") content i j ->
         func_b4a0 content = found (slice content (Z.of_nat i) (Z.of_nat j))))
  /\
  (exists content m i j,
      re_search pat_b4a0 content = Some m /\
      first_from (txt "function _0xb4a0") content 0 i /\
      first_from (txt "(function(_0x9dcbec") content i j /\
      group0 content m <> slice content (Z.of_nat i) (Z.of_nat j) /\
      func_b4a0 content = found (group0 content m)).
Proof.
  split.
  - intros content. split; [|split].
    + intros m E. unfold func_b4a0. now rewrite E.
    + intros Ea m Eb. unfold func_b4a0. now rewrite Ea, Eb.
    + intros Ea Eb i j Hi Hj. rewrite func_b4a0_fallback by assumption.
      now apply positional_found.
  - exists doc_precise_and_marker,
      (MkMatch 0 (Span 40 None None)), 0, 46.
    split; [vm_compute; reflexivity|].
    split; [apply find_first_from; vm_compute; reflexivity|].
    split; [apply find_first_from; vm_compute; reflexivity|].
    split; [|vm_compute; reflexivity].
    intros H. apply (f_equal (@length ascii)) in H. vm_compute in H.
    discriminate H.
Qed.

Lemma decoder_strategy_order_witness :
  func_b4a0 doc_marker_only = found (txt "function _0xb4a0(a,b){x;}var y;").
Proof.
  destruct decoder_strategy_order as [H _].
  destruct (H doc_marker_only) as (_ & _ & Hpos).
  rewrite (Hpos eq_refl eq_refl 8 39).
  - vm_compute. reflexivity.
  - apply find_first_from. vm_compute. reflexivity.
  - apply find_first_from. vm_compute. reflexivity.
Defined.

(** C4. The configuration payload captured is exactly the text between the
    quotes of the assignment [window['ZpQw9XkLmN8c3vR3']='<payload>';]: the
    extraction yields [payload] exactly when the document is
    [pre ++ window['ZpQw9XkLmN8c3vR3']=' ++ payload ++ '; ++ post] for the
    leftmost such assignment on one line, with [';] first occurring right
    after the payload, nothing added and nothing stripped.  An empty payload
    is captured as the empty text, no message is printed for it, and the run
    succeeds when the other three fragments are found. *)
Theorem config_payload_exact (content : text) :
  (forall payload,
      snd (config_str content) = Some payload <->
      exists i,
        delimited (txt "window['ZpQw9XkLmN8c3vR3']='") (txt "';") content i payload
        /\ forall j mid', j < i ->
             ~ delimited (txt "window['ZpQw9XkLmN8c3vR3']='") (txt "';")
                 content j mid')
  /\
  (forall pre post,
      content = pre ++ txt "window['ZpQw9XkLmN8c3vR3']='" ++ txt "';" ++ post ->
      (forall j, j < length pre ->
                 ~ occurs_at (txt "window['ZpQw9XkLmN8c3vR3']='") content j) ->
      config_str content = found [])
  /\
  (forall w f1 f2 f3,
      fs w html_path = Some (Text content) ->
      snd (func_8b05 content) = Some f1 ->
      snd (func_b4a0 content) = Some f2 ->
      snd (shuffle_iife content) = Some f3 ->
      snd (config_str content) = Some [] ->
      fst (extract_decoder w) = Next tt /\
      fs (snd (extract_decoder w)) output_path
      = Some (Text (f1 ++ nl ++ f2 ++ nl ++ f3 ++ nl
                    ++ txt "const configString = '';" ++ nl
                    ++ txt "module.exports = { _0xb4a0, configString };" ++ nl))).
Proof.
  assert (Hiff : forall payload,
             snd (config_str content) = Some payload <->
             exists i,
               delimited open_config close_config content i payload /\
               forall j mid', j < i ->
                 ~ delimited open_config close_config content j mid').
  { intros payload. pose proof (config_str_spec content) as Hspec. split.
    - intros E. now rewrite E in Hspec.
    - intros (i & Hd & Hmin).
      destruct (snd (config_str content)) as [p|].
      + destruct Hspec as (i' & Hd' & Hmin').
        destruct (delimited_leftmost_unique Hd' Hmin' Hd Hmin) as [_ ->].
        reflexivity.
      + exfalso. eapply Hspec, Hd. }
  split; [exact Hiff | split].
  - intros pre post E Hmin.
    assert (Es : snd (config_str content) = Some []).
    { apply Hiff. exists (length pre). split.
      - split; [now exists pre, post|]. split; [intros []|].
        split; [lia|]. split.
        + exists (pre ++ open_config), post. split.
          * rewrite E, <- !app_assoc. reflexivity.
          * rewrite length_app. cbn [length]. lia.
        + intros j H1 H2. cbn [length] in H2. lia.
      - intros j mid' Hj Hd. apply (Hmin j Hj). eapply delimited_occurs, Hd. }
    destruct (config_str_cases content) as [[p Ep]|Ep]; rewrite Ep in Es |- *.
    + cbn [snd found] in Es. now injection Es as ->.
    + discriminate Es.
  - intros w f1 f2 f3 H E1 E2 E3 E4.
    destruct (extract_decoder_run w H) as [_ Hrun].
    unfold fragments in Hrun. rewrite E1, E2, E3, E4 in Hrun.
    destruct Hrun as (Ho & Hout & _). split; [exact Ho|].
    rewrite Hout. unfold assembled. reflexivity.
Qed.

Lemma config_payload_exact_witness :
  config_str (txt "x;window['ZpQw9XkLmN8c3vR3']='';y") = found [] /\
  snd (config_str doc_full) = Some (txt "abc123").
Proof.
  split.
  - destruct (config_payload_exact (txt "x;window['ZpQw9XkLmN8c3vR3']='';y"))
      as (_ & H & _).
    apply (H (txt "x;") (txt "y")); [reflexivity|].
    intros j Hj Hocc. apply occurrences_spec in Hocc. vm_compute in Hocc, Hj.
    destruct Hocc as [<-|[]]. lia.
  - vm_compute. reflexivity.
Defined.

(** C5. The decoder extraction fails, and the run with it (it returns and no
    file is created or modified), when the start token [function _0xb4a0] is
    absent from the document, and when the token is present but neither end
    pattern matches and the marker [(function(_0x9dcbec] does not occur from
    the start position on. *)
Theorem decoder_failure (w : world) (content : text) :
  fs w html_path = Some (Text content) ->
  ((forall i, ~ occurs_at (txt "function _0xb4a0") content i) ->
   func_b4a0 content = say "Could not find _0xb4a0 function" leave /\
   fst (extract_decoder w) = Returned /\ fs (snd (extract_decoder w)) = fs w)
  /\
  (forall i,
      re_search pat_b4a0 content = None ->
      re_search pat_b4a0_alt content = None ->
      first_from (txt "function _0xb4a0") content 0 i ->
      (forall j, i <= j -> ~ occurs_at (txt "(function(_0x9dcbec") content j) ->
      func_b4a0 content = say "Could not find end of _0xb4a0" leave /\
      fst (extract_decoder w) = Returned /\ fs (snd (extract_decoder w)) = fs w).
Proof.
  intros H. split.
  - intros Hno. destruct (no_start_no_match Hno) as [Ea Eb].
    assert (E : func_b4a0 content = say "Could not find _0xb4a0 function" leave).
    { rewrite func_b4a0_fallback by assumption. now apply positional_no_start. }
    split; [exact E|]. apply failed_run with content; [exact H|].
    right; left. now rewrite E.
  - intros i Ea Eb Hi Hno.
    assert (E : func_b4a0 content = say "Could not find end of _0xb4a0" leave).
    { rewrite func_b4a0_fallback by assumption.
      now apply positional_no_end with i. }
    split; [exact E|]. apply failed_run with content; [exact H|].
    right; left. now rewrite E.
Qed.

Lemma decoder_failure_witness :
  (func_b4a0 (txt "<html></html>") = say "Could not find _0xb4a0 function" leave
   /\ fs (snd (extract_decoder (world_of (txt "<html></html>")))) output_path
      = Some (Text (txt "old content")))
  /\
  (func_b4a0 doc_no_decoder_end = say "Could not find end of _0xb4a0" leave
   /\ fs (snd (extract_decoder (world_of doc_no_decoder_end))) output_path
      = Some (Text (txt "old content"))).
Proof.
  split.
  - destruct (decoder_failure (world_of (txt "<html></html>"))
                (content := txt "<html></html>") eq_refl) as [H _].
    destruct H as (H1 & _ & H2).
    + apply no_occurrence. vm_compute. reflexivity.
    + split; [exact H1 | rewrite H2; reflexivity].
  - destruct (decoder_failure (world_of doc_no_decoder_end)
                (content := doc_no_decoder_end) eq_refl) as [_ H].
    destruct (H 52) as (H1 & _ & H2).
    + vm_compute. reflexivity.
    + vm_compute. reflexivity.
    + apply find_first_from. vm_compute. reflexivity.
    + intros j _. apply no_occurrence. vm_compute. reflexivity.
    + split; [exact H1 | rewrite H2; reflexivity].
Defined.

(** C6, as the code has it.  A successful run prints the success message,
    which names the output path, last; it is the only message when the
    pattern of the shuffle routine matched, and it follows the one diagnostic
    [Could not find shuffle IIFE] when the routine was found by its positional
    fallback.  A failed run prints at least one message, each a diagnostic of
    the script naming the fragment or end that was not found, never the success
    message, and creates or modifies no file.  The diagnostics of a failed run
    are those of the first extraction that fails, and each says what the
    document lacks: the lookup-table function, the decoder's start token, an
    end for the decoder, the start token of the shuffle routine, an end for
    it, or the configuration assignment (after the notice of the shuffle
    fallback, when that one was used). *)
Theorem run_messages (w : world) (content : text) :
  fs w html_path = Some (Text content) ->
  ((fst (extract_decoder w) = Next tt /\
     fs (snd (extract_decoder w)) output_path <> None /\
     ((re_search pat_shuffle content <> None /\
       stdout (snd (extract_decoder w)) = stdout w ++ [success_message])
      \/
      (re_search pat_shuffle content = None /\
       stdout (snd (extract_decoder w))
       = stdout w ++ [txt "Could not find shuffle IIFE"; success_message])))
    \/
    (fst (extract_decoder w) = Returned /\
     fs (snd (extract_decoder w)) = fs w /\
     exists msgs,
       msgs <> [] /\
       stdout (snd (extract_decoder w)) = stdout w ++ msgs /\
       (forall m, In m msgs -> In m failure_diagnostics) /\
       ~ In success_message msgs))
  /\
  (fst (extract_decoder w) = Returned ->
   ((forall j mid,
        ~ delimited (txt "function _0x8b05(){") (txt "return _0x8b05();}")
            content j mid) /\
    snd (func_8b05 content) = None /\
    stdout (snd (extract_decoder w))
    = stdout w ++ [txt "Could not find _0x8b05 function"])
   \/
   (snd (func_8b05 content) <> None /\
    (forall i, ~ occurs_at (txt "function _0xb4a0") content i) /\
    snd (func_b4a0 content) = None /\
    stdout (snd (extract_decoder w))
    = stdout w ++ [txt "Could not find _0xb4a0 function"])
   \/
   (snd (func_8b05 content) <> None /\
    (exists i,
        first_from (txt "function _0xb4a0") content 0 i /\
        forall j, i <= j -> ~ occurs_at (txt "(function(_0x9dcbec") content j) /\
    snd (func_b4a0 content) = None /\
    stdout (snd (extract_decoder w))
    = stdout w ++ [txt "Could not find end of _0xb4a0"])
   \/
   (snd (func_8b05 content) <> None /\ snd (func_b4a0 content) <> None /\
    (forall i, ~ occurs_at (txt "(function(_0x9dcbec") content i) /\
    snd (shuffle_iife content) = None /\
    stdout (snd (extract_decoder w))
    = stdout w ++ [txt "Could not find shuffle IIFE"])
   \/
   (snd (func_8b05 content) <> None /\ snd (func_b4a0 content) <> None /\
    (exists i,
        first_from (txt "(function(_0x9dcbec") content 0 i /\
        forall j, i <= j -> ~ occurs_at (txt ",!(function") content j) /\
    snd (shuffle_iife content) = None /\
    stdout (snd (extract_decoder w))
    = stdout w ++ [txt "Could not find shuffle IIFE";
                   txt "Could not find end of shuffle IIFE"])
   \/
   (snd (func_8b05 content) <> None /\ snd (func_b4a0 content) <> None /\
    snd (shuffle_iife content) <> None /\
    (forall j mid,
        ~ delimited (txt "window['ZpQw9XkLmN8c3vR3']='") (txt "';")
            content j mid) /\
    snd (config_str content) = None /\
    ((re_search pat_shuffle content <> None /\
      stdout (snd (extract_decoder w))
      = stdout w ++ [txt "Could not find config string"])
     \/
     (re_search pat_shuffle content = None /\
      stdout (snd (extract_decoder w))
      = stdout w ++ [txt "Could not find shuffle IIFE";
                     txt "Could not find config string"])))).
Proof.
  intros H. split.
  { revert H.
    intros H. destruct (extract_decoder_run w H) as [Hout Hrun].
    unfold fragments, diagnostics in Hout, Hrun.
    assert (Hfail : forall msgs,
               fst (extract_decoder w) = Returned /\
               fs (snd (extract_decoder w)) = fs w ->
               stdout (snd (extract_decoder w)) = stdout w ++ msgs ->
               msgs <> [] ->
               (forall m, In m msgs -> In m failure_diagnostics) ->
               fst (extract_decoder w) = Returned /\
               fs (snd (extract_decoder w)) = fs w /\
               exists msgs,
                 msgs <> [] /\
                 stdout (snd (extract_decoder w)) = stdout w ++ msgs /\
                 (forall m, In m msgs -> In m failure_diagnostics) /\
                 ~ In success_message msgs).
    { intros msgs [Ho Hfs] Hs Hne Hin. split; [exact Ho | split; [exact Hfs|]].
      exists msgs. repeat split; auto.
      intros Hsucc. apply success_not_diagnostic. now apply Hin. }
    destruct (func_8b05_cases content) as [[f1 E1]|E1]; rewrite E1 in Hout, Hrun;
      cbn [fst snd found say leave app] in Hout, Hrun.
    2:{ right. apply (Hfail _ Hrun Hout); [discriminate|].
        unfold failure_diagnostics. cbn [In]. intuition. }
    destruct (func_b4a0_cases content) as [[f2 E2]|[E2|E2]];
      rewrite E2 in Hout, Hrun; cbn [fst snd found say leave app] in Hout, Hrun.
    2,3: right; apply (Hfail _ Hrun Hout); [discriminate|];
         unfold failure_diagnostics; cbn [In]; intuition.
    destruct (shuffle_iife_cases content)
      as [[Hs [f3 E3]]|[Hs [[f3 E3]|[E3|E3]]]];
      rewrite E3 in Hout, Hrun; cbn [fst snd found say leave app] in Hout, Hrun.
    3,4: right; apply (Hfail _ Hrun Hout); [discriminate|];
         unfold failure_diagnostics; cbn [In]; intuition.
    - destruct (config_str_cases content) as [[p E4]|E4];
        rewrite E4 in Hout, Hrun; cbn [fst snd found say leave app] in Hout, Hrun.
      + left. destruct Hrun as (Ho & Hf & _). split; [exact Ho|].
        split; [now rewrite Hf|]. left. now split.
      + right. apply (Hfail _ Hrun Hout); [discriminate|].
        unfold failure_diagnostics. cbn [In]. intuition.
    - destruct (config_str_cases content) as [[p E4]|E4];
        rewrite E4 in Hout, Hrun; cbn [fst snd found say leave app] in Hout, Hrun.
      + left. destruct Hrun as (Ho & Hf & _). split; [exact Ho|].
        split; [now rewrite Hf|]. right. now split.
      + right. apply (Hfail _ Hrun Hout); [discriminate|].
        unfold failure_diagnostics. cbn [In]. intuition. }
  intros Hret. destruct (extract_decoder_run w H) as [Hout Hrun].
  unfold fragments, diagnostics in Hout, Hrun.
  destruct (func_8b05_outcomes content) as [[f1 E1]|[C1 E1]];
    rewrite E1 in Hout, Hrun |- *;
    cbn [fst snd found say leave app] in Hout, Hrun |- *;
    rewrite ?app_nil_r in Hout.
  2:{ left. split; [exact C1 | split; [reflexivity | exact Hout]]. }
  right.
  destruct (func_b4a0_outcomes content) as [[f2 E2]|[[C2 E2]|[C2 E2]]];
    rewrite E2 in Hout, Hrun |- *;
    cbn [fst snd found say leave app] in Hout, Hrun |- *;
    rewrite ?app_nil_r in Hout.
  2:{ left. split; [discriminate|].
      split; [exact C2 | split; [reflexivity | exact Hout]]. }
  2:{ right; left. split; [discriminate|].
      split; [exact C2 | split; [reflexivity | exact Hout]]. }
  right; right.
  destruct (shuffle_iife_outcomes content)
    as [[Hs [f3 E3]]|[[Hs [f3 E3]]|[[C3 E3]|[C3 E3]]]];
    rewrite E3 in Hout, Hrun |- *;
    cbn [fst snd found say leave app] in Hout, Hrun |- *;
    rewrite ?app_nil_r in Hout.
  3:{ left. split; [discriminate|]. split; [discriminate|].
      split; [exact C3 | split; [reflexivity | exact Hout]]. }
  3:{ right; left. split; [discriminate|]. split; [discriminate|].
      split; [exact C3 | split; [reflexivity | exact Hout]]. }
  - right; right.
    destruct (config_str_outcomes content) as [[p E4]|[C4 E4]];
      rewrite E4 in Hout, Hrun |- *;
      cbn [fst snd found say leave app] in Hout, Hrun |- *;
      rewrite ?app_nil_r in Hout.
    + destruct Hrun as [Ho _]. congruence.
    + repeat (split; [discriminate|]).
      split; [exact C4 | split; [reflexivity|]]. left. now split.
  - right; right.
    destruct (config_str_outcomes content) as [[p E4]|[C4 E4]];
      rewrite E4 in Hout, Hrun |- *;
      cbn [fst snd found say leave app] in Hout, Hrun |- *;
      rewrite ?app_nil_r in Hout.
    + destruct Hrun as [Ho _]. congruence.
    + repeat (split; [discriminate|]).
      split; [exact C4 | split; [reflexivity|]]. right. now split.
Qed.

Lemma run_messages_witness :
  stdout (snd (extract_decoder (world_of doc_full))) = [success_message] /\
  stdout (snd (extract_decoder (world_of doc_no_config)))
  = [txt "Could not find config string"].
Proof.
  split.
  - destruct (run_messages (world_of doc_full) (content := doc_full) eq_refl)
      as [[(_ & _ & [[_ Hs]|[_ Hs]])|(Ho & _)] _].
    + exact Hs.
    + vm_compute in Hs. discriminate Hs.
    + vm_compute in Ho. discriminate Ho.
  - destruct (run_messages (world_of doc_no_config) (content := doc_no_config)
                eq_refl) as [_ Hrep].
    destruct Hrep
      as [(_ & F & _)|[(_ & _ & F & _)|[(_ & _ & F & _)|[(_ & _ & _ & F & _)
          |[(_ & _ & _ & F & _)|(_ & _ & _ & _ & _ & [[_ Hs]|[F _]])]]]]];
      try (vm_compute in F; discriminate F).
    + vm_compute. reflexivity.
    + exact Hs.
Defined.

(** C6, as the specification states it, fails on a document whose shuffle
    routine is found by the fallback: the run succeeds and writes the output
    file, and two messages are printed, the first of them a failure
    diagnostic. *)
Lemma success_after_diagnostic :
  fs (world_of doc_shuffle_fallback) html_path
  = Some (Text doc_shuffle_fallback) /\
  fst (extract_decoder (world_of doc_shuffle_fallback)) = Next tt /\
  fs (snd (extract_decoder (world_of doc_shuffle_fallback))) output_path
  = Some (Text
            (assembled
               (txt "function _0x8b05(){return [1,2,3];return _0x8b05();}")
               (txt "function _0xb4a0(_0x447697,_0x51a3a4){body;},_0xb4a0(_0x447697,_0x51a3a4);}")
               (txt "(function(_0x9dcbec,_0x4ab1b0){x}(_0x8b05,0x58BBD))")
               (txt "abc123"))) /\
  stdout (snd (extract_decoder (world_of doc_shuffle_fallback)))
  = [txt "Could not find shuffle IIFE"; success_message] /\
  stdout (snd (extract_decoder (world_of doc_shuffle_fallback)))
  <> stdout (world_of doc_shuffle_fallback) ++ [success_message].
Proof.
  repeat split; try (vm_compute; reflexivity).
  intros H. apply (f_equal (@length text)) in H. vm_compute in H.
  discriminate H.
Qed.

(** C7. In both positional fallbacks (the decoder's scan for
    [(function(_0x9dcbec] and the shuffle routine's scan for [,!(function])
    the fragment is the text from the position of the start token up to the
    marker found, which follows it in the document and is not part of it:
    the marker does not occur anywhere in the fragment.  And the fallback
    does yield that text: when the patterns do not match, the start token
    first occurs at the end of [pre] and the marker first occurs, from there
    on, right after [frag], the extraction returns [frag]. *)
Theorem positional_fallback_excludes_marker (content frag : text) :
  (re_search pat_b4a0 content = None ->
   re_search pat_b4a0_alt content = None ->
   snd (func_b4a0 content) = Some frag ->
   exists pre post,
     content = pre ++ frag ++ txt "(function(_0x9dcbec" ++ post /\
     first_from (txt "function _0xb4a0") content 0 (length pre) /\
     first_from (txt "(function(_0x9dcbec") content
       (length pre) (length pre + length frag) /\
     forall k, ~ occurs_at (txt "(function(_0x9dcbec") frag k)
  /\
  (re_search pat_shuffle content = None ->
   snd (shuffle_iife content) = Some frag ->
   exists pre post,
     content = pre ++ frag ++ txt ",!(function" ++ post /\
     first_from (txt "(function(_0x9dcbec") content 0 (length pre) /\
     first_from (txt ",!(function") content
       (length pre) (length pre + length frag) /\
     forall k, ~ occurs_at (txt ",!(function") frag k)
  /\
  (re_search pat_b4a0 content = None ->
   re_search pat_b4a0_alt content = None ->
   forall pre post,
     content = pre ++ frag ++ txt "(function(_0x9dcbec" ++ post ->
     first_from (txt "function _0xb4a0") content 0 (length pre) ->
     first_from (txt "(function(_0x9dcbec") content
       (length pre) (length pre + length frag) ->
     func_b4a0 content = found frag /\
     frag = slice content (Z.of_nat (length pre))
              (Z.of_nat (length pre + length frag)))
  /\
  (re_search pat_shuffle content = None ->
   forall pre post,
     content = pre ++ frag ++ txt ",!(function" ++ post ->
     first_from (txt "(function(_0x9dcbec") content 0 (length pre) ->
     first_from (txt ",!(function") content
       (length pre) (length pre + length frag) ->
     shuffle_iife content = say "Could not find shuffle IIFE" (found frag) /\
     frag = slice content (Z.of_nat (length pre))
              (Z.of_nat (length pre + length frag))).
Proof.
  split; [|split; [|split]].
  - intros Ea Eb. rewrite func_b4a0_fallback by assumption.
    apply positional_some; [vm_compute; lia | reflexivity | reflexivity].
  - intros E. rewrite shuffle_iife_fallback by assumption.
    cbn [snd say]. apply positional_some;
      [vm_compute; lia | reflexivity | reflexivity].
  - intros Ea Eb pre post E Hi Hj.
    assert (Es : frag = slice content (Z.of_nat (length pre))
                          (Z.of_nat (length pre + length frag)))
      by (rewrite E; symmetry; apply slice_app).
    split; [|exact Es]. rewrite func_b4a0_fallback by assumption.
    rewrite (positional_found _ _ Hi Hj). now rewrite <- Es.
  - intros Ea pre post E Hi Hj.
    assert (Es : frag = slice content (Z.of_nat (length pre))
                          (Z.of_nat (length pre + length frag)))
      by (rewrite E; symmetry; apply slice_app).
    split; [|exact Es]. rewrite shuffle_iife_fallback by assumption.
    rewrite (positional_found _ _ Hi Hj). now rewrite <- Es.
Qed.

Lemma positional_fallback_excludes_marker_witness :
  func_b4a0 doc_marker_only = found (txt "function _0xb4a0(a,b){x;}var y;") /\
  shuffle_iife doc_shuffle_fallback
  = say "Could not find shuffle IIFE"
      (found (txt "(function(_0x9dcbec,_0x4ab1b0){x}(_0x8b05,0x58BBD))")) /\
  exists pre post,
    doc_shuffle_fallback
    = pre ++ txt "(function(_0x9dcbec,_0x4ab1b0){x}(_0x8b05,0x58BBD))"
      ++ txt ",!(function" ++ post.
Proof.
  split; [|split].
  - destruct (positional_fallback_excludes_marker doc_marker_only
                (txt "function _0xb4a0(a,b){x;}var y;")) as (_ & _ & H & _).
    apply (H eq_refl eq_refl (txt "<script>") (txt ",z){})")).
    + reflexivity.
    + apply find_first_from. vm_compute. reflexivity.
    + apply find_first_from. vm_compute. reflexivity.
  - destruct (positional_fallback_excludes_marker doc_shuffle_fallback
                (txt "(function(_0x9dcbec,_0x4ab1b0){x}(_0x8b05,0x58BBD))"))
      as (_ & _ & _ & H).
    apply (H eq_refl
             (txt "function _0x8b05(){return [1,2,3];return _0x8b05();}function _0xb4a0(_0x447697,_0x51a3a4){body;},_0xb4a0(_0x447697,_0x51a3a4);}")
             (txt "(){})();window['ZpQw9XkLmN8c3vR3']='abc123';")).
    + reflexivity.
    + apply find_first_from. vm_compute. reflexivity.
    + apply find_first_from. vm_compute. reflexivity.
  - destruct (positional_fallback_excludes_marker doc_shuffle_fallback
                (txt "(function(_0x9dcbec,_0x4ab1b0){x}(_0x8b05,0x58BBD))"))
      as (_ & H & _).
    destruct H as (pre & post & E & _); [vm_compute; reflexivity .. |].
    now exists pre, post.
Defined.

(** C8. Determinism.  Two runs in worlds whose input files hold the same
    content have the same outcome, print the same messages, and on success
    leave the same content in the output file, whatever the output file and
    the standard output held before. *)
Theorem extract_deterministic (w1 w2 : world) :
  fs w1 html_path = fs w2 html_path ->
  fst (extract_decoder w1) = fst (extract_decoder w2) /\
  (exists msgs,
      stdout (snd (extract_decoder w1)) = stdout w1 ++ msgs /\
      stdout (snd (extract_decoder w2)) = stdout w2 ++ msgs) /\
  (fst (extract_decoder w1) = Next tt ->
   fs (snd (extract_decoder w1)) output_path <> None /\
   fs (snd (extract_decoder w1)) output_path
   = fs (snd (extract_decoder w2)) output_path).
Proof.
  intros H. destruct (fs w1 html_path) as [[content|]|] eqn:E1.
  - symmetry in H.
    destruct (extract_decoder_run w1 E1) as [Hout1 Hrun1].
    destruct (extract_decoder_run w2 H) as [Hout2 Hrun2].
    split; [|split].
    + destruct (fragments content) as [[[[f1 f2] f3] p]|].
      * destruct Hrun1 as [-> _], Hrun2 as [-> _]. reflexivity.
      * destruct Hrun1 as [-> _], Hrun2 as [-> _]. reflexivity.
    + eexists. split; eassumption.
    + destruct (fragments content) as [[[[f1 f2] f3] p]|].
      * destruct Hrun1 as (_ & -> & _), Hrun2 as (_ & -> & _).
        intros _. split; [discriminate | reflexivity].
      * destruct Hrun1 as [-> _]. discriminate.
  - symmetry in H. rewrite (undecodable_input _ E1), (undecodable_input _ H).
    split; [reflexivity | split].
    + exists []. now rewrite !app_nil_r.
    + discriminate.
  - symmetry in H. rewrite (missing_input _ E1), (missing_input _ H).
    split; [reflexivity | split].
    + exists []. now rewrite !app_nil_r.
    + discriminate.
Qed.

Lemma extract_deterministic_witness :
  fs (snd (extract_decoder (world_of doc_full))) output_path
  = fs (snd (extract_decoder
               (World (fun p => if String.eqb p html_path then Some (Text doc_full)
                                else None)
                      [txt "an earlier line"]))) output_path.
Proof.
  apply (extract_deterministic (world_of doc_full)
           (World (fun p => if String.eqb p html_path then Some (Text doc_full)
                            else None)
                  [txt "an earlier line"])).
  - reflexivity.
  - vm_compute. reflexivity.
Defined.

(** C9, as the code has it.  Every search selects the leftmost match: a
    regular-expression search returns the match at the least position from
    which the whole pattern matches (an earlier start marker from which the
    pattern cannot be completed is passed over), and a literal search returns
    the least occurrence at or after its start position.  So the lookup-table
    fragment is the leftmost text delimited by its two tokens on one line, and
    the configuration payload comes from the leftmost assignment that the
    pattern matches.  The searches do return these: a pattern that denotes a
    part of the document is found, at or before that part and at no position
    before the first such part; a text that occurs is found at its first
    occurrence; the leftmost delimited fragment and the leftmost assignment
    are the ones extracted; and a search returns nothing only when there is
    nothing to find. *)
Theorem leftmost_match (content : text) :
  (forall r m,
      re_search r content = Some m ->
      match_here r (skipn (m_start m) content) = Some (m_span m) /\
      forall j, j < m_start m -> match_here r (skipn j content) = None)
  /\
  (forall sub a k,
      find content sub (Z.of_nat a) = Z.of_nat k -> first_from sub content a k)
  /\
  (forall frag,
      snd (func_8b05 content) = Some frag ->
      exists i mid,
        delimited open_8b05 close_8b05 content i mid /\
        frag = open_8b05 ++ mid ++ close_8b05 /\
        forall j mid', j < i -> ~ delimited open_8b05 close_8b05 content j mid')
  /\
  (forall payload,
      snd (config_str content) = Some payload ->
      exists i,
        delimited open_config close_config content i payload /\
        forall j mid', j < i -> ~ delimited open_config close_config content j mid')
  /\
  (forall r m,
      re_search r content = Some m ->
      matches r (group0 content m) /\
      occurs_at (group0 content m) content (m_start m) /\
      forall j t, j < m_start m -> matches r t -> ~ occurs_at t content j)
  /\
  (forall r j t,
      matches r t -> occurs_at t content j ->
      exists m, re_search r content = Some m /\ m_start m <= j)
  /\
  (forall r,
      re_search r content = None <->
      forall j t, matches r t -> ~ occurs_at t content j)
  /\
  (forall sub a k,
      first_from sub content a k -> find content sub (Z.of_nat a) = Z.of_nat k)
  /\
  (forall sub a,
      find content sub (Z.of_nat a) = (-1)%Z <->
      forall j, a <= j -> ~ occurs_at sub content j)
  /\
  (forall i mid,
      delimited open_8b05 close_8b05 content i mid ->
      (forall j mid', j < i -> ~ delimited open_8b05 close_8b05 content j mid') ->
      func_8b05 content = found (open_8b05 ++ mid ++ close_8b05))
  /\
  ((forall j mid, ~ delimited open_8b05 close_8b05 content j mid) ->
   func_8b05 content = say "Could not find _0x8b05 function" leave)
  /\
  (forall i payload,
      delimited open_config close_config content i payload ->
      (forall j mid', j < i -> ~ delimited open_config close_config content j mid') ->
      config_str content = found payload)
  /\
  ((forall j mid, ~ delimited open_config close_config content j mid) ->
   config_str content = say "Could not find config string" leave).
Proof.
  assert (Hat : forall r j t, matches r t -> occurs_at t content j ->
                              match_here r (skipn j content) <> None).
  { intros r j t Hm (pre & post & -> & <-). rewrite skipn_exact.
    now apply match_here_complete. }
  repeat apply conj.
  - intros r m E. apply search_from_some in E as (j & Hj & _ & Hm & Hmin).
    simpl in Hj. subst j. now split.
  - intros sub a k. apply find_first_from.
  - intros frag E. pose proof (func_8b05_spec content) as H.
    now rewrite E in H.
  - intros payload E. pose proof (config_str_spec content) as H.
    now rewrite E in H.
  - intros r m E. destruct (search_sound _ _ E) as (Hm & pre & post & Hs & Hl).
    split; [exact Hm|]. split; [now exists pre, post|].
    apply search_from_some in E as (j0 & Hj & _ & _ & Hmin).
    simpl in Hj. subst j0. intros j t Hj Ht Hocc.
    apply (Hat r j t Ht Hocc). now apply Hmin.
  - intros r j t Ht Hocc. pose proof (Hat r j t Ht Hocc) as Hne.
    destruct (re_search r content) as [m|] eqn:E.
    + exists m. split; [reflexivity|].
      apply search_from_some in E as (j0 & Hj & _ & _ & Hmin).
      simpl in Hj. subst j0.
      destruct (Nat.le_gt_cases (m_start m) j) as [Hle|Hgt]; [exact Hle|].
      exfalso. apply Hne. now apply Hmin.
    + exfalso. apply Hne. eapply search_from_none, E.
  - intros r. split.
    + intros E j t Ht Hocc. apply (Hat r j t Ht Hocc).
      eapply search_from_none, E.
    + intros Hno. destruct (re_search r content) as [m|] eqn:E; [|reflexivity].
      destruct (search_sound _ _ E) as (Hm & pre & post & Hs & Hl).
      exfalso. apply (Hno (m_start m) (group0 content m) Hm).
      now exists pre, post.
  - intros sub a k. apply find_first.
  - intros sub a. split.
    + intros E. destruct (find_spec content sub a) as [(k & E' & _)|[_ Hno]];
        [rewrite E in E'; lia | exact Hno].
    + apply find_absent.
  - intros i mid Hd Hmin.
    destruct (func_8b05_outcomes content) as [[f E]|[Hno _]].
    + pose proof (func_8b05_spec content) as H. rewrite E in H |- *.
      cbn [snd found] in H. destruct H as (i' & mid' & Hd' & -> & Hmin').
      destruct (delimited_leftmost_unique Hd' Hmin' Hd Hmin) as [_ ->].
      reflexivity.
    + exfalso. eapply Hno, Hd.
  - intros Hno. destruct (func_8b05_outcomes content) as [[f E]|[_ E]];
      [|exact E].
    pose proof (func_8b05_spec content) as H. rewrite E in H.
    cbn [snd found] in H. destruct H as (i & mid & Hd & _). exfalso.
    eapply Hno, Hd.
  - intros i payload Hd Hmin.
    destruct (config_str_outcomes content) as [[f E]|[Hno _]].
    + pose proof (config_str_spec content) as H. rewrite E in H |- *.
      cbn [snd found] in H. destruct H as (i' & Hd' & Hmin').
      destruct (delimited_leftmost_unique Hd' Hmin' Hd Hmin) as [_ ->].
      reflexivity.
    + exfalso. eapply Hno, Hd.
  - intros Hno. destruct (config_str_outcomes content) as [[f E]|[_ E]];
      [|exact E].
    pose proof (config_str_spec content) as H. rewrite E in H.
    cbn [snd found] in H. destruct H as (i & Hd & _). exfalso.
    eapply Hno, Hd.
Qed.

Lemma leftmost_match_witness :
  match_here pat_8b05 (skipn 0 doc_two_starts) = None /\
  (exists m, re_search pat_8b05 doc_two_starts = Some m /\ m_start m <= 20) /\
  find doc_two_starts (txt "return") 0 = 39%Z.
Proof.
  destruct (leftmost_match doc_two_starts)
    as (H & _ & _ & _ & _ & Hfound & _ & Hfind & _).
  split; [|split].
  - destruct (H pat_8b05 (MkMatch 20 (Span 37 None None))) as [_ Hmin].
    + vm_compute. reflexivity.
    + apply Hmin. simpl. lia.
  - apply (Hfound pat_8b05 20 (txt "function _0x8b05(){return _0x8b05();}")).
    + vm_compute. repeat apply matches_chr.
      apply (@matches_lazy _ _ [] _ eq_refl).
      repeat apply matches_chr. apply matches_nil.
    + exists (txt "function _0x8b05(){" ++ nl), []. split; reflexivity.
  - apply (Hfind (txt "return") 0 39). apply find_first_from.
    vm_compute. reflexivity.
Defined.

(** C9, as the specification states it, fails: the fragment is not always
    the one at the first occurrence of the start marker.  Here the marker
    occurs at positions 0 and 20, and the fragment extracted is the one at
    position 20. *)
Lemma first_start_passed_over :
  occurrences open_8b05 doc_two_starts = [0; 20] /\
  find doc_two_starts open_8b05 0 = 0%Z /\
  re_search pat_8b05 doc_two_starts = Some (MkMatch 20 (Span 37 None None)) /\
  func_8b05 doc_two_starts = found (skipn 20 doc_two_starts) /\
  func_8b05 doc_two_starts
  <> found (slice doc_two_starts 0 (Z.of_nat (length (skipn 20 doc_two_starts)))).
Proof.
  repeat split; try (vm_compute; reflexivity).
  vm_compute. intros H. discriminate H.
Qed.

(** C10. The pattern of the lookup-table function does not span line breaks.
    When every occurrence of the end token [return _0x8b05();}] after an
    occurrence of the start token [function _0x8b05(){] has a newline between
    the two, the extraction fails and the run aborts, though both tokens may
    be present in the document. *)
Theorem no_match_across_lines (w : world) (content : text) :
  fs w html_path = Some (Text content) ->
  (forall i j,
      occurs_at (txt "function _0x8b05(){") content i ->
      occurs_at (txt "return _0x8b05();}") content j ->
      i + length (txt "function _0x8b05(){") <= j ->
      exists k, i + length (txt "function _0x8b05(){") <= k /\ k < j /\
                nth_error content k = Some newline) ->
  func_8b05 content = say "Could not find _0x8b05 function" leave /\
  fst (extract_decoder w) = Returned /\
  fs (snd (extract_decoder w)) = fs w.
Proof.
  intros H Hsep.
  change (txt "function _0x8b05(){") with open_8b05 in Hsep.
  change (txt "return _0x8b05();}") with close_8b05 in Hsep.
  assert (E : func_8b05 content = say "Could not find _0x8b05 function" leave).
  { destruct (func_8b05_cases content) as [[f E]|E]; [exfalso | exact E].
    pose proof (func_8b05_spec content) as Hspec. rewrite E in Hspec.
    cbn [snd found] in Hspec. destruct Hspec as (i & mid & Hd & _ & _).
    destruct (Hsep i (i + length open_8b05 + length mid)) as (k & Hlo & Hhi & Hk).
    - eapply delimited_occurs, Hd.
    - eapply delimited_close_occurs, Hd.
    - lia.
    - destruct Hd as (Hd1 & Hline & Hd3). apply Hline.
      apply (delimited_char (conj Hd1 (conj Hline Hd3)) (k := k)); assumption. }
  split; [exact E|]. apply failed_run with content; [exact H|].
  left. now rewrite E.
Qed.

Lemma no_match_across_lines_witness :
  occurrences (txt "function _0x8b05(){") doc_two_lines = [0] /\
  occurrences (txt "return _0x8b05();}") doc_two_lines = [20] /\
  func_8b05 doc_two_lines = say "Could not find _0x8b05 function" leave /\
  fs (snd (extract_decoder (world_of doc_two_lines))) output_path
  = Some (Text (txt "old content")).
Proof.
  split; [vm_compute; reflexivity|]. split; [vm_compute; reflexivity|].
  destruct (no_match_across_lines (world_of doc_two_lines)
              (content := doc_two_lines) eq_refl) as (H1 & _ & H2).
  - intros i j Hi Hj Hle. apply occurrences_spec in Hi, Hj.
    vm_compute in Hi, Hj. destruct Hi as [<-|[]]. destruct Hj as [<-|[]].
    exists 19. vm_compute. repeat split; lia.
  - split; [exact H1 | rewrite H2; reflexivity].
Defined.

(** * Shapes of the fragments *)

Section Shapes.

Lemma matches_chars (p : text) (r : regex) (t : text) :
  matches (map Chr p ++ r) t <-> exists t', t = p ++ t' /\ matches r t'.
Proof.
  revert t; induction p as [|c p IH]; intros t; simpl.
  - split; [intros H; now exists t | intros (t' & -> & H); exact H].
  - split.
    + intros H. inversion H as [|c' r' t0 H0| | | |]; subst.
      apply IH in H0 as (t' & -> & H0). now exists t'.
    + intros (t' & -> & H). constructor. apply IH. now exists t'.
Qed.

Lemma matches_chars_only (p t : text) : matches (map Chr p) t <-> t = p.
Proof.
  rewrite <- (app_nil_r (map Chr p)), matches_chars. split.
  - intros (t' & -> & H). inversion H. now rewrite app_nil_r.
  - intros ->. exists []. split; [now rewrite app_nil_r | constructor].
Qed.

Lemma matches_lazy_inv (cls : ascii -> bool) (r : regex) (t : text) :
  matches (LazyStar cls :: r) t <->
  exists l t', t = l ++ t' /\ forallb cls l = true /\ matches r t'.
Proof.
  split.
  - intros H. inversion H; subst. eauto.
  - intros (l & t' & -> & Hall & H). now constructor.
Qed.

Lemma matches_plus_inv (cls : ascii -> bool) (r : regex) (t : text) :
  matches (GreedyPlus cls :: r) t <->
  exists l t', t = l ++ t' /\ run_of cls l /\ matches r t'.
Proof.
  split.
  - intros H. inversion H as [| | |cls' r' a l t' Ha Hall H'| |]; subst.
    exists (a :: l), t'. split; [reflexivity|]. split; [|exact H'].
    split; [discriminate | simpl; now rewrite Ha].
  - intros (l & t' & -> & [Hne Hall] & H). destruct l as [|a l]; [contradiction|].
    simpl in Hall. apply andb_true_iff in Hall as [Ha Hall].
    now constructor.
Qed.

Lemma class_one_line (cls : ascii -> bool) (l : text) :
  cls newline = false -> forallb cls l = true -> one_line l.
Proof.
  intros Hn Hall Hin. rewrite forallb_forall in Hall.
  apply Hall in Hin. congruence.
Qed.

Lemma one_line_app (a b : text) : one_line (a ++ b) <-> one_line a /\ one_line b.
Proof.
  unfold one_line. rewrite in_app_iff. tauto.
Qed.

(** A pattern without an item for the line feed denotes one-line texts. *)
Lemma matches_one_line (r : regex) (t : text) :
  matches r t -> line_bound r = true -> one_line t.
Proof.
  unfold line_bound.
  induction 1 as [|c r t _ IH|cls r l t Hall _ IH|cls r a l t Ha Hall _ IH
                  |r t _ IH|r t _ IH]; simpl; intros Hb;
    try apply andb_true_iff in Hb as [Hi Hb].
  - intros [].
  - apply negb_true_iff, Ascii.eqb_neq in Hi.
    intros [E|Hin]; [now apply Hi | now apply IH].
  - apply negb_true_iff in Hi. apply one_line_app. split; [|now apply IH].
    now apply class_one_line with cls.
  - apply negb_true_iff in Hi.
    change (a :: l ++ t) with ((a :: l) ++ t). apply one_line_app.
    split; [|now apply IH]. apply class_one_line with cls; [exact Hi|].
    simpl. now rewrite Ha.
  - now apply IH.
  - now apply IH.
Qed.

Lemma pat_b4a0_shape :
  pat_b4a0
  = map Chr (txt "function _0xb4a0(") ++ GreedyPlus ident_class
    :: map Chr (txt "){") ++ LazyStar dot
    :: map Chr (txt "_0xb4a0(") ++ GreedyPlus ident_class
    :: map Chr (txt ");}").
Proof. reflexivity. Qed.

Lemma pat_b4a0_alt_shape :
  pat_b4a0_alt
  = map Chr (txt "function _0xb4a0(") ++ GreedyPlus ident_class
    :: map Chr (txt "){") ++ LazyStar dot
    :: map Chr (txt "return _0x8b0550[t];}").
Proof. reflexivity. Qed.

Lemma pat_shuffle_shape :
  pat_shuffle
  = map Chr (txt "(function(_0x9dcbec,_0x4ab1b0){") ++ LazyStar dot
    :: map Chr (txt "(_0x8b05,0x") ++ GreedyPlus hex_class
    :: map Chr (txt "));").
Proof. reflexivity. Qed.

Lemma decoder_shape_iff (t : text) : matches pat_b4a0 t <-> decoder_shape t.
Proof.
  rewrite pat_b4a0_shape. unfold decoder_shape. split.
  - intros H. apply matches_chars in H as (t1 & -> & H).
    apply matches_plus_inv in H as (params & t2 & -> & Hp & H).
    apply matches_chars in H as (t3 & -> & H).
    apply matches_lazy_inv in H as (body & t4 & -> & Hb & H).
    apply matches_chars in H as (t5 & -> & H).
    apply matches_plus_inv in H as (args & t6 & -> & Ha & H).
    apply matches_chars_only in H as ->.
    exists params, body, args. repeat split; try apply Hp; try apply Ha.
    now apply dot_one_line.
  - intros (params & body & args & -> & Hp & Hb & Ha).
    apply matches_chars. eexists. split; [reflexivity|].
    apply matches_plus_inv. exists params. eexists. split; [reflexivity|].
    split; [exact Hp|].
    apply matches_chars. eexists. split; [reflexivity|].
    apply matches_lazy_inv. exists body. eexists. split; [reflexivity|].
    split; [now apply dot_one_line|].
    apply matches_chars. eexists. split; [reflexivity|].
    apply matches_plus_inv. exists args. eexists. split; [reflexivity|].
    split; [exact Ha|]. now apply matches_chars_only.
Qed.

Lemma decoder_alt_shape_iff (t : text) :
  matches pat_b4a0_alt t <-> decoder_alt_shape t.
Proof.
  rewrite pat_b4a0_alt_shape. unfold decoder_alt_shape. split.
  - intros H. apply matches_chars in H as (t1 & -> & H).
    apply matches_plus_inv in H as (params & t2 & -> & Hp & H).
    apply matches_chars in H as (t3 & -> & H).
    apply matches_lazy_inv in H as (body & t4 & -> & Hb & H).
    apply matches_chars_only in H as ->.
    exists params, body. repeat split; try apply Hp.
    now apply dot_one_line.
  - intros (params & body & -> & Hp & Hb).
    apply matches_chars. eexists. split; [reflexivity|].
    apply matches_plus_inv. exists params. eexists. split; [reflexivity|].
    split; [exact Hp|].
    apply matches_chars. eexists. split; [reflexivity|].
    apply matches_lazy_inv. exists body. eexists. split; [reflexivity|].
    split; [now apply dot_one_line|]. now apply matches_chars_only.
Qed.

Lemma shuffle_shape_iff (t : text) : matches pat_shuffle t <-> shuffle_shape t.
Proof.
  rewrite pat_shuffle_shape. unfold shuffle_shape. split.
  - intros H. apply matches_chars in H as (t1 & -> & H).
    apply matches_lazy_inv in H as (body & t2 & -> & Hb & H).
    apply matches_chars in H as (t3 & -> & H).
    apply matches_plus_inv in H as (digits & t4 & -> & Hd & H).
    apply matches_chars_only in H as ->.
    exists body, digits. repeat split; try apply Hd.
    now apply dot_one_line.
  - intros (body & digits & -> & Hb & Hd).
    apply matches_chars. eexists. split; [reflexivity|].
    apply matches_lazy_inv. exists body. eexists. split; [reflexivity|].
    split; [now apply dot_one_line|].
    apply matches_chars. eexists. split; [reflexivity|].
    apply matches_plus_inv. exists digits. eexists. split; [reflexivity|].
    split; [exact Hd|]. now apply matches_chars_only.
Qed.

End Shapes.

Section Origins.

(** Where a decoder fragment comes from. *)
Lemma func_b4a0_origin (content frag : text) :
  snd (func_b4a0 content) = Some frag ->
  (exists m, re_search pat_b4a0 content = Some m /\ frag = group0 content m)
  \/ (re_search pat_b4a0 content = None /\
      exists m, re_search pat_b4a0_alt content = Some m /\
                frag = group0 content m)
  \/ (re_search pat_b4a0 content = None /\
      re_search pat_b4a0_alt content = None /\
      snd (positional content start_b4a0 start_shuffle
             (say "Could not find end of _0xb4a0" leave)
             (say "Could not find _0xb4a0 function" leave)) = Some frag).
Proof.
  destruct (re_search pat_b4a0 content) as [m|] eqn:Ea.
  { unfold func_b4a0. rewrite Ea. cbn [snd found]. intros [= <-].
    left. now exists m. }
  destruct (re_search pat_b4a0_alt content) as [m|] eqn:Eb.
  { unfold func_b4a0. rewrite Ea, Eb. cbn [snd found]. intros [= <-].
    right; left. split; [reflexivity | now exists m]. }
  rewrite func_b4a0_fallback by assumption. intros H. right; right. auto.
Qed.

(** Where a shuffle fragment comes from. *)
Lemma shuffle_iife_origin (content frag : text) :
  snd (shuffle_iife content) = Some frag ->
  (exists m, re_search pat_shuffle content = Some m /\ frag = group0 content m)
  \/ (re_search pat_shuffle content = None /\
      snd (positional content start_shuffle next_statement
             (say "Could not find end of shuffle IIFE" leave) leave)
      = Some frag).
Proof.
  destruct (re_search pat_shuffle content) as [m|] eqn:E.
  { unfold shuffle_iife. rewrite E. cbn [snd found]. intros [= <-].
    left. now exists m. }
  rewrite shuffle_iife_fallback by assumption. cbn [snd say].
  intros H. right. auto.
Qed.

Lemma search_part (r : regex) (s : text) (m : Match) :
  re_search r s = Some m -> part_of (group0 s m) s.
Proof.
  intros H. destruct (search_sound _ _ H) as (_ & pre & post & E & _).
  now exists pre, post.
Qed.

Lemma positional_part (content start marker : text)
    (no_end no_start : Block text) (frag : text) :
  0 < length marker -> snd no_end = None -> snd no_start = None ->
  snd (positional content start marker no_end no_start) = Some frag ->
  part_of frag content.
Proof.
  intros Hpos Hne Hns H.
  destruct (positional_some _ _ _ _ _ Hpos Hne Hns H) as (pre & post & E & _).
  now exists pre, (marker ++ post).
Qed.

(** A fragment cut at a marker whose first character is not in the start
    token holds the whole start token. *)
Lemma token_before_marker (start x frag marker post : text) (c : ascii) :
  start ++ x = frag ++ (c :: marker) ++ post -> ~ In c start ->
  exists rest, frag = start ++ rest.
Proof.
  revert frag; induction start as [|a start IH]; intros frag E Hc.
  - now exists frag.
  - destruct frag as [|b frag]; simpl in E.
    + injection E as -> _. exfalso. apply Hc. now left.
    + injection E as <- E. destruct (IH frag E) as [rest ->].
      * intros Hin. apply Hc. now right.
      * now exists rest.
Qed.

Lemma positional_starts (content start marker : text) (c : ascii)
    (no_end no_start : Block text) (frag : text) :
  ~ In c start -> snd no_end = None -> snd no_start = None ->
  snd (positional content start (c :: marker) no_end no_start) = Some frag ->
  exists rest, frag = start ++ rest.
Proof.
  intros Hc Hne Hns H.
  destruct (positional_some content start (c :: marker) no_end no_start)
    with (frag := frag) as (pre & post & E & (_ & Hocc & _) & _);
    [simpl; lia | assumption .. |].
  apply occurs_at_iff in Hocc as [_ Hocc].
  rewrite E, skipn_exact in Hocc.
  apply starts_with_iff in Hocc as [x Hx].
  apply token_before_marker with x marker post c.
  - rewrite <- Hx. reflexivity.
  - exact Hc.
Qed.

Lemma no_paren_in_start_b4a0 : ~ In "("%char start_b4a0.
Proof.
  intros H. vm_compute in H.
  repeat (destruct H as [H|H]; [discriminate H|]). exact H.
Qed.

Lemma no_comma_in_start_shuffle : ~ In ","%char start_shuffle.
Proof.
  intros H. vm_compute in H.
  repeat (destruct H as [H|H]; [discriminate H|]). exact H.
Qed.

End Origins.

(** Patterns do not cross line breaks, so neither do the fragments they find. *)
Lemma one_line_fragments (content frag : text) :
  (snd (func_8b05 content) = Some frag -> one_line frag)
  /\
  (snd (func_b4a0 content) = Some frag ->
   re_search pat_b4a0 content <> None \/ re_search pat_b4a0_alt content <> None ->
   one_line frag)
  /\
  (snd (shuffle_iife content) = Some frag ->
   re_search pat_shuffle content <> None -> one_line frag)
  /\
  (snd (config_str content) = Some frag -> one_line frag).
Proof.
  assert (Hline : forall r m, line_bound r = true ->
                              re_search r content = Some m ->
                              one_line (group0 content m)).
  { intros r m Hb E. destruct (search_sound _ _ E) as [Hm _].
    now apply matches_one_line with r. }
  split; [|split; [|split]].
  - unfold func_8b05.
    destruct (re_search pat_8b05 content) as [m|] eqn:E; [|discriminate].
    cbn [snd found]. intros [= <-]. now apply Hline with pat_8b05.
  - intros H Hp. apply func_b4a0_origin in H
      as [(m & E & ->)|[(_ & m & E & ->)|(Ea & Eb & _)]].
    + now apply Hline with pat_b4a0.
    + now apply Hline with pat_b4a0_alt.
    + destruct Hp as [Hp|Hp]; contradiction.
  - intros H Hp. apply shuffle_iife_origin in H as [(m & E & ->)|(E & _)].
    + now apply Hline with pat_shuffle.
    + contradiction.
  - intros H. pose proof (config_str_spec content) as Hs. rewrite H in Hs.
    destruct Hs as (i & (_ & Hl & _) & _). exact Hl.
Qed.

(** * Further properties of the code *)

(** X1. Every fragment is verbatim: whatever strategy finds it, a pattern or
    a positional fallback, each of the three fragments and the configuration
    payload is a contiguous part of the input document. *)
Theorem fragments_verbatim (content frag : text) :
  snd (func_8b05 content) = Some frag \/ snd (func_b4a0 content) = Some frag \/
  snd (shuffle_iife content) = Some frag \/ snd (config_str content) = Some frag ->
  part_of frag content.
Proof.
  intros [H|[H|[H|H]]].
  - unfold func_8b05 in H.
    destruct (re_search pat_8b05 content) as [m|] eqn:E; [|discriminate].
    cbn [snd found] in H. injection H as <-. eapply search_part, E.
  - apply func_b4a0_origin in H
      as [(m & E & ->)|[(_ & m & E & ->)|(_ & _ & H)]];
      try (eapply search_part, E).
    eapply positional_part with (4 := H); [vm_compute; lia | reflexivity ..].
  - apply shuffle_iife_origin in H as [(m & E & ->)|(_ & H)];
      try (eapply search_part, E).
    eapply positional_part with (4 := H); [vm_compute; lia | reflexivity ..].
  - pose proof (config_str_spec content) as Hs. rewrite H in Hs.
    destruct Hs as (i & ((pre & post & E & _) & _) & _).
    exists (pre ++ open_config), (close_config ++ post).
    rewrite E, <- !app_assoc. reflexivity.
Qed.

Lemma fragments_verbatim_witness :
  part_of (txt "function _0xb4a0(a,b){x;}var y;") doc_marker_only.
Proof.
  apply fragments_verbatim. right; left. vm_compute. reflexivity.
Defined.

(** X2. Whatever strategy finds them, the decoder fragment begins with the
    token [function _0xb4a0] and the shuffle fragment with the token
    [(function(_0x9dcbec]: a positional fallback cannot cut the fragment
    inside its start token, so a fragment is never empty. *)
Theorem fragments_begin_with_start_token (content frag : text) :
  (snd (func_b4a0 content) = Some frag ->
   exists rest, frag = txt "function _0xb4a0" ++ rest)
  /\
  (snd (shuffle_iife content) = Some frag ->
   exists rest, frag = txt "(function(_0x9dcbec" ++ rest).
Proof.
  split; intros H.
  - apply func_b4a0_origin in H
      as [(m & E & ->)|[(_ & m & E & ->)|(_ & _ & H)]].
    + destruct (search_sound _ _ E) as [Hm _].
      apply decoder_shape_iff in Hm as (params & body & args & -> & _).
      eexists. change (txt "function _0xb4a0(")
        with (txt "function _0xb4a0" ++ txt "(").
      rewrite <- app_assoc. reflexivity.
    + destruct (search_sound _ _ E) as [Hm _].
      apply decoder_alt_shape_iff in Hm as (params & body & -> & _).
      eexists. change (txt "function _0xb4a0(")
        with (txt "function _0xb4a0" ++ txt "(").
      rewrite <- app_assoc. reflexivity.
    + change start_shuffle with ("("%char :: txt "function(_0x9dcbec") in H.
      eapply positional_starts with (4 := H);
        [exact no_paren_in_start_b4a0 | reflexivity ..].
  - apply shuffle_iife_origin in H as [(m & E & ->)|(_ & H)].
    + destruct (search_sound _ _ E) as [Hm _].
      apply shuffle_shape_iff in Hm as (body & digits & -> & _).
      eexists. change (txt "(function(_0x9dcbec,_0x4ab1b0){")
        with (txt "(function(_0x9dcbec" ++ txt ",_0x4ab1b0){").
      rewrite <- app_assoc. reflexivity.
    + change next_statement with (","%char :: txt "!(function") in H.
      eapply positional_starts with (4 := H);
        [exact no_comma_in_start_shuffle | reflexivity ..].
Qed.

Lemma fragments_begin_with_start_token_witness :
  exists rest,
    txt "(function(_0x9dcbec,_0x4ab1b0){x}(_0x8b05,0x58BBD))"
    = txt "(function(_0x9dcbec" ++ rest.
Proof.
  apply (fragments_begin_with_start_token doc_shuffle_fallback).
  vm_compute. reflexivity.
Defined.

(** X3. A fragment found by a pattern holds no newline: the lookup-table
    fragment and the configuration payload always, the decoder and the
    shuffle fragments when one of their patterns matches.  Only a positional
    fallback can yield a fragment of several lines. *)
Theorem pattern_fragments_on_one_line (content frag : text) :
  (snd (func_8b05 content) = Some frag -> one_line frag)
  /\
  (snd (func_b4a0 content) = Some frag ->
   re_search pat_b4a0 content <> None \/ re_search pat_b4a0_alt content <> None ->
   one_line frag)
  /\
  (snd (shuffle_iife content) = Some frag ->
   re_search pat_shuffle content <> None -> one_line frag)
  /\
  (snd (config_str content) = Some frag -> one_line frag).
Proof. apply one_line_fragments. Qed.

Lemma pattern_fragments_on_one_line_witness :
  one_line (txt "function _0xb4a0(_0x447697,_0x51a3a4){body;},_0xb4a0(_0x447697,_0x51a3a4);}").
Proof.
  destruct (pattern_fragments_on_one_line doc_full
              (txt "function _0xb4a0(_0x447697,_0x51a3a4){body;},_0xb4a0(_0x447697,_0x51a3a4);}"))
    as (_ & H & _).
  apply H; [vm_compute; reflexivity | left; vm_compute; discriminate].
Defined.

(** X4. When a run succeeds with the decoder and the shuffle routine found
    by their patterns, the output file has exactly five newline characters:
    it is five lines, one per fragment, one for the constant and one for the
    export statement. *)
Theorem output_has_five_lines (w : world) (content : text) :
  fs w html_path = Some (Text content) ->
  fst (extract_decoder w) = Next tt ->
  re_search pat_b4a0 content <> None \/ re_search pat_b4a0_alt content <> None ->
  re_search pat_shuffle content <> None ->
  exists out,
    fs (snd (extract_decoder w)) output_path = Some (Text out) /\
    count_occ ascii_dec out newline = 5.
Proof.
  intros H Hok Hdec Hshuf. destruct (extract_decoder_run w H) as [_ Hrun].
  unfold fragments in Hrun.
  destruct (snd (func_8b05 content)) as [f1|] eqn:E1;
    [|destruct Hrun as [Hr _]; congruence].
  destruct (snd (func_b4a0 content)) as [f2|] eqn:E2;
    [|destruct Hrun as [Hr _]; congruence].
  destruct (snd (shuffle_iife content)) as [f3|] eqn:E3;
    [|destruct Hrun as [Hr _]; congruence].
  destruct (snd (config_str content)) as [p|] eqn:E4;
    [|destruct Hrun as [Hr _]; congruence].
  destruct Hrun as (_ & Hout & _). eexists. split; [exact Hout|].
  apply (one_line_fragments content) in E1.
  apply (proj1 (proj2 (one_line_fragments content f2))) in E2; [|exact Hdec].
  apply (proj1 (proj2 (proj2 (one_line_fragments content f3)))) in E3;
    [|exact Hshuf].
  apply (proj2 (proj2 (proj2 (one_line_fragments content p)))) in E4.
  unfold one_line in E1, E2, E3, E4.
  rewrite (count_occ_not_In ascii_dec) in E1, E2, E3, E4.
  unfold assembled. rewrite !count_occ_app, E1, E2, E3, E4. reflexivity.
Qed.

Lemma output_has_five_lines_witness :
  exists out,
    fs (snd (extract_decoder (world_of doc_full))) output_path
    = Some (Text out) /\
    count_occ ascii_dec out newline = 5.
Proof.
  apply (output_has_five_lines (world_of doc_full) (content := doc_full)).
  - reflexivity.
  - vm_compute. reflexivity.
  - left. vm_compute. discriminate.
  - vm_compute. discriminate.
Defined.

(** X5. The decoder is found by its patterns exactly as their shapes say.
    A document that holds, on one line, [function _0xb4a0(params){body]
    followed by [_0xb4a0(args);}] (parameters and arguments being one
    character or more among letters, digits, [_] and [,]) yields a fragment of
    that shape; a document with none of these but with the same start
    followed by [return _0x8b0550[t];}] yields a fragment of this second
    shape; and a fragment of neither shape is returned only when the document
    holds no text of either shape. *)
Theorem decoder_found_by_pattern (content : text) :
  ((exists t, part_of t content /\ decoder_shape t) ->
   exists frag, func_b4a0 content = found frag /\ decoder_shape frag)
  /\
  (~ (exists t, part_of t content /\ decoder_shape t) ->
   (exists t, part_of t content /\ decoder_alt_shape t) ->
   exists frag, func_b4a0 content = found frag /\ decoder_alt_shape frag)
  /\
  (forall frag,
      snd (func_b4a0 content) = Some frag ->
      ~ decoder_shape frag -> ~ decoder_alt_shape frag ->
      ~ (exists t, part_of t content /\ decoder_shape t) /\
      ~ (exists t, part_of t content /\ decoder_alt_shape t)).
Proof.
  assert (Ha : re_search pat_b4a0 content <> None <->
               exists t, part_of t content /\ decoder_shape t).
  { rewrite search_complete. split; intros (t & Hp & Hm); exists t;
      (split; [exact Hp | now apply decoder_shape_iff]). }
  assert (Hb : re_search pat_b4a0_alt content <> None <->
               exists t, part_of t content /\ decoder_alt_shape t).
  { rewrite search_complete. split; intros (t & Hp & Hm); exists t;
      (split; [exact Hp | now apply decoder_alt_shape_iff]). }
  split; [|split].
  - intros H. apply Ha in H.
    destruct (re_search pat_b4a0 content) as [m|] eqn:E; [|contradiction].
    exists (group0 content m). split; [unfold func_b4a0; now rewrite E|].
    apply decoder_shape_iff. now apply search_sound.
  - intros Hno H. apply Hb in H.
    destruct (re_search pat_b4a0 content) as [m|] eqn:Ea.
    { exfalso. apply Hno, Ha. discriminate. }
    destruct (re_search pat_b4a0_alt content) as [m|] eqn:Eb; [|contradiction].
    exists (group0 content m). split; [unfold func_b4a0; now rewrite Ea, Eb|].
    apply decoder_alt_shape_iff. now apply search_sound.
  - intros frag H Hn1 Hn2. apply func_b4a0_origin in H
      as [(m & E & ->)|[(_ & m & E & ->)|(Ea & Eb & _)]].
    + exfalso. apply Hn1, decoder_shape_iff. now apply search_sound.
    + exfalso. apply Hn2, decoder_alt_shape_iff. now apply search_sound.
    + split; [rewrite <- Ha | rewrite <- Hb]; intros F; now apply F.
Qed.

Lemma decoder_found_by_pattern_witness :
  exists frag, func_b4a0 doc_precise_and_marker = found frag /\ decoder_shape frag.
Proof.
  destruct (decoder_found_by_pattern doc_precise_and_marker) as [H _].
  apply H. exists (txt "function _0xb4a0(a,b){x;},_0xb4a0(a,b);}"). split.
  - exists [], (txt "var y;(function(_0x9dcbec,z){})"). reflexivity.
  - exists (txt "a,b"), (txt "x;},"), (txt "a,b").
    split; [reflexivity|]. split; [split; [discriminate | reflexivity]|].
    split; [|split; [discriminate | reflexivity]].
    apply dot_one_line. reflexivity.
Defined.

(** X6. The shuffle routine is found by its pattern, with no message,
    exactly when the document holds, on one line,
    [(function(_0x9dcbec,_0x4ab1b0){body(_0x8b05,0x] followed by one
    lower-case hexadecimal digit or more and [));]; the fragment then has that
    shape.  On any other document the first message printed is
    [Could not find shuffle IIFE], whether the fallback then succeeds or
    not. *)
Theorem shuffle_found_by_pattern (content : text) :
  ((exists t, part_of t content /\ shuffle_shape t) ->
   exists frag, shuffle_iife content = found frag /\ shuffle_shape frag)
  /\
  (~ (exists t, part_of t content /\ shuffle_shape t) ->
   exists rest,
     fst (shuffle_iife content) = txt "Could not find shuffle IIFE" :: rest).
Proof.
  assert (Hs : re_search pat_shuffle content <> None <->
               exists t, part_of t content /\ shuffle_shape t).
  { rewrite search_complete. split; intros (t & Hp & Hm); exists t;
      (split; [exact Hp | now apply shuffle_shape_iff]). }
  split.
  - intros H. apply Hs in H.
    destruct (re_search pat_shuffle content) as [m|] eqn:E; [|contradiction].
    exists (group0 content m). split; [unfold shuffle_iife; now rewrite E|].
    apply shuffle_shape_iff. now apply search_sound.
  - intros Hno.
    destruct (re_search pat_shuffle content) as [m|] eqn:E.
    { exfalso. apply Hno, Hs. discriminate. }
    rewrite shuffle_iife_fallback by assumption. cbn [fst say]. now eexists.
Qed.

Lemma shuffle_found_by_pattern_witness :
  exists frag, shuffle_iife doc_full = found frag /\ shuffle_shape frag.
Proof.
  destruct (shuffle_found_by_pattern doc_full) as [H _].
  apply H. exists (txt "(function(_0x9dcbec,_0x4ab1b0){x}(_0x8b05,0x58bbd));").
  split.
  - exists (txt "<html>function _0x8b05(){return [1,2,3];return _0x8b05();}function _0xb4a0(_0x447697,_0x51a3a4){body;},_0xb4a0(_0x447697,_0x51a3a4);}"),
      (txt "window['ZpQw9XkLmN8c3vR3']='abc123';</html>").
    reflexivity.
  - exists (txt "x}"), (txt "58bbd").
    split; [reflexivity|]. split; [apply dot_one_line; reflexivity|].
    split; [discriminate | reflexivity].
Defined.

(** X7. Only the first failure is reported.  The extractions run in the
    order lookup table, decoder, shuffle routine, configuration string, and
    the run stops at the first that fails: its messages are the only ones
    printed, and what is missing further on is not reported.  A missing
    configuration string is reported only after the three fragments were
    found. *)
Theorem first_failure_reported (w : world) (content : text) :
  fs w html_path = Some (Text content) ->
  (snd (func_8b05 content) = None ->
   stdout (snd (extract_decoder w))
   = stdout w ++ [txt "Could not find _0x8b05 function"])
  /\
  (snd (func_8b05 content) <> None -> snd (func_b4a0 content) = None ->
   stdout (snd (extract_decoder w))
   = stdout w ++ [txt "Could not find end of _0xb4a0"]
   \/ stdout (snd (extract_decoder w))
      = stdout w ++ [txt "Could not find _0xb4a0 function"])
  /\
  (snd (func_8b05 content) <> None -> snd (func_b4a0 content) <> None ->
   snd (shuffle_iife content) = None ->
   stdout (snd (extract_decoder w))
   = stdout w ++ [txt "Could not find shuffle IIFE"]
   \/ stdout (snd (extract_decoder w))
      = stdout w ++ [txt "Could not find shuffle IIFE";
                     txt "Could not find end of shuffle IIFE"])
  /\
  (snd (func_8b05 content) <> None -> snd (func_b4a0 content) <> None ->
   snd (shuffle_iife content) <> None -> snd (config_str content) = None ->
   stdout (snd (extract_decoder w))
   = stdout w ++ fst (shuffle_iife content)
     ++ [txt "Could not find config string"]).
Proof.
  intros H. destruct (extract_decoder_run w H) as [Hout _].
  unfold fragments, diagnostics in Hout.
  destruct (func_8b05_cases content) as [[f1 E1]|E1];
    destruct (func_b4a0_cases content) as [[f2 E2]|[E2|E2]];
    destruct (shuffle_iife_cases content)
      as [[_ [f3 E3]]|[_ [[f3 E3]|[E3|E3]]]];
    destruct (config_str_cases content) as [[p E4]|E4];
    rewrite E1, E2, E3, E4 in Hout |- *;
    cbn [fst snd found say leave app] in Hout |- *;
    rewrite ?app_nil_r in Hout;
    (split; [|split; [|split]]); intros; try congruence; auto.
Qed.

Lemma first_failure_reported_witness :
  stdout (snd (extract_decoder (world_of (txt "<html></html>"))))
  = [txt "Could not find _0x8b05 function"].
Proof.
  destruct (first_failure_reported (world_of (txt "<html></html>"))
              (content := txt "<html></html>") eq_refl) as [H _].
  apply H. vm_compute. reflexivity.
Defined.

Lemma paths_differ : html_path <> output_path.
Proof. apply String.eqb_neq. reflexivity. Qed.

(** No file but the output file is touched, whatever the outcome. *)
Lemma other_files_kept (w : world) (q : string) :
  q <> output_path -> fs (snd (extract_decoder w)) q = fs w q.
Proof.
  intros Hq. destruct (fs w html_path) as [[content|]|] eqn:H.
  - destruct (extract_decoder_run w H) as [_ Hrun].
    destruct (fragments content) as [[[[f1 f2] f3] p]|].
    + destruct Hrun as (_ & _ & Hother). now apply Hother.
    + destruct Hrun as [_ ->]. reflexivity.
  - now rewrite (undecodable_input _ H).
  - now rewrite (missing_input _ H).
Qed.

(** X8. A run never creates, modifies or removes a file other than the
    output file, whether it succeeds, returns early or raises; in particular
    the input document is left as it was. *)
Theorem only_output_file_written (w : world) (q : string) :
  q <> output_path ->
  fs (snd (extract_decoder w)) q = fs w q.
Proof. apply other_files_kept. Qed.

Lemma only_output_file_written_witness :
  fs (snd (extract_decoder (world_of doc_full))) html_path
  = Some (Text doc_full).
Proof.
  rewrite (only_output_file_written (world_of doc_full) (q := html_path)).
  - reflexivity.
  - apply String.eqb_neq. reflexivity.
Defined.

(** X9. Running the script again changes nothing: the second run has the
    outcome of the first, prints the same messages once more, and leaves
    every file, the output file included, as the first run left it. *)
Theorem rerun_changes_nothing (w : world) :
  fst (extract_decoder (snd (extract_decoder w))) = fst (extract_decoder w) /\
  (forall q,
      fs (snd (extract_decoder (snd (extract_decoder w)))) q
      = fs (snd (extract_decoder w)) q) /\
  exists msgs,
    stdout (snd (extract_decoder w)) = stdout w ++ msgs /\
    stdout (snd (extract_decoder (snd (extract_decoder w))))
    = stdout (snd (extract_decoder w)) ++ msgs.
Proof.
  assert (Hin : fs (snd (extract_decoder w)) html_path = fs w html_path)
    by (apply other_files_kept, paths_differ).
  destruct (fs w html_path) as [[content|]|] eqn:H.
  - destruct (extract_decoder_run w H) as [Hout1 Hrun1].
    destruct (extract_decoder_run (snd (extract_decoder w)) Hin)
      as [Hout2 Hrun2].
    split; [|split].
    + destruct (fragments content) as [[[[f1 f2] f3] p]|].
      * destruct Hrun1 as [-> _], Hrun2 as [-> _]. reflexivity.
      * destruct Hrun1 as [-> _], Hrun2 as [-> _]. reflexivity.
    + intros q. destruct (fragments content) as [[[[f1 f2] f3] p]|].
      * destruct (string_dec q output_path) as [->|Hq].
        -- destruct Hrun1 as (_ & -> & _), Hrun2 as (_ & -> & _). reflexivity.
        -- now apply other_files_kept.
      * destruct Hrun2 as [_ ->]. reflexivity.
    + eexists. split; eassumption.
  - rewrite (undecodable_input _ H). cbn [fst snd].
    rewrite (undecodable_input _ H). cbn [fst snd].
    split; [reflexivity | split; [reflexivity|]].
    exists []. now rewrite app_nil_r.
  - rewrite (missing_input _ H). cbn [fst snd]. rewrite (missing_input _ H).
    cbn [fst snd]. split; [reflexivity | split; [reflexivity|]].
    exists []. now rewrite app_nil_r.
Qed.

(** X10. A failed extraction is not an error for the caller of the script:
    when the document is read and a fragment is not found, the script ends
    with status 0, its diagnostics printed and no file changed.  It ends with
    status 1, having printed nothing and written nothing, when the input file
    is missing and when it does not decode as UTF-8. *)
Theorem exit_status (w : world) :
  (forall content,
      fs w html_path = Some (Text content) ->
      snd (func_8b05 content) = None \/ snd (func_b4a0 content) = None \/
      snd (shuffle_iife content) = None \/ snd (config_str content) = None ->
      fst (main w) = 0%Z /\ fs (snd (main w)) = fs w /\
      stdout (snd (main w)) = stdout w ++ diagnostics content)
  /\
  (fs w html_path = None \/ fs w html_path = Some Undecodable ->
   fst (main w) = 1%Z /\ snd (main w) = w).
Proof.
  unfold main. split.
  - intros content H Hf. destruct (failed_run w H Hf) as [Ho Hfs].
    destruct (extract_decoder_run w H) as [Hout _].
    replace (fragments content) with (@None (text * text * text * text))
      in Hout.
    + rewrite app_nil_r in Hout.
      destruct (extract_decoder w) as [o w']. cbn [fst snd] in Ho, Hfs, Hout.
      subst o. auto.
    + unfold fragments.
      destruct (snd (func_8b05 content)), (snd (func_b4a0 content)),
        (snd (shuffle_iife content)), (snd (config_str content));
        try reflexivity.
      destruct Hf as [F|[F|[F|F]]]; discriminate.
  - intros [H|H].
    + rewrite (missing_input _ H). auto.
    + rewrite (undecodable_input _ H). auto.
Qed.

Lemma exit_status_witness :
  fst (main (world_of doc_no_config)) = 0%Z /\
  fst (main (World (fun p => if String.eqb p html_path then Some Undecodable
                             else None) [])) = 1%Z.
Proof.
  split.
  - apply (exit_status (world_of doc_no_config)) with doc_no_config.
    + reflexivity.
    + right; right; right. vm_compute. reflexivity.
  - apply (exit_status (World (fun p => if String.eqb p html_path
                                        then Some Undecodable else None) [])).
    right. reflexivity.
Defined.

Section Success.

Lemma occurs_in_part (sub frag pre post : text) (k : nat) :
  occurs_at sub frag k -> occurs_at sub (pre ++ frag ++ post) (length pre + k).
Proof.
  intros (a & b & -> & <-). exists (pre ++ a), (b ++ post). split.
  - now rewrite <- !app_assoc.
  - now rewrite length_app.
Qed.

(** The fallback finds a fragment exactly when the start token is followed,
    somewhere, by the marker. *)
Lemma positional_succeeds (content start marker : text)
    (no_end no_start : Block text) :
  snd no_end = None -> snd no_start = None ->
  (snd (positional content start marker no_end no_start) <> None
   <-> followed_by start marker content).
Proof.
  intros Hne Hns. unfold positional, followed_by.
  destruct (find_spec0 content start) as [(i & Ei & Hi)|[Ei Hno]]; rewrite Ei.
  - rewrite neq_nat.
    destruct (find_spec content marker i) as [(j & Ej & Hj)|[Ej Hnone]];
      rewrite Ej.
    + rewrite neq_nat. cbn [snd found]. split; [intros _ | discriminate].
      exists i, j. destruct Hi as (_ & Hi & _), Hj as (Hij & Hj & _). auto.
    + change (neq (-1) (-1)) with false. cbv iota. rewrite Hne.
      split; [contradiction|]. intros (i' & j & Hi' & Hj & Hle).
      exfalso. apply (Hnone j); [|exact Hj].
      destruct Hi as (_ & _ & Hmin).
      destruct (Nat.le_gt_cases i i') as [Hc|Hc]; [lia|].
      exfalso. apply (Hmin i'); [lia | exact Hc | exact Hi'].
  - change (neq (-1) (-1)) with false. cbv iota. rewrite Hns.
    split; [contradiction|]. intros (i & j & Hi & _). exfalso. now apply (Hno i).
Qed.

Lemma func_8b05_succeeds (content : text) :
  snd (func_8b05 content) <> None <-> has_delimited open_8b05 close_8b05 content.
Proof.
  pose proof (func_8b05_spec content) as H. unfold has_delimited.
  destruct (snd (func_8b05 content)) as [f|].
  - destruct H as (i & mid & Hd & _). split; [intros _; eauto | discriminate].
  - split; [contradiction|]. intros (i & mid & Hd). exfalso. eapply H, Hd.
Qed.

Lemma config_str_succeeds (content : text) :
  snd (config_str content) <> None
  <-> has_delimited open_config close_config content.
Proof.
  pose proof (config_str_spec content) as H. unfold has_delimited.
  destruct (snd (config_str content)) as [f|].
  - destruct H as (i & Hd & _). split; [intros _; eauto | discriminate].
  - split; [contradiction|]. intros (i & mid & Hd). exfalso. eapply H, Hd.
Qed.

Lemma search_holds (r : regex) (shape : text -> Prop) (content : text) :
  (forall t, matches r t <-> shape t) ->
  (re_search r content <> None <-> holds shape content).
Proof.
  intros Hshape. rewrite search_complete. unfold holds.
  split; intros (t & Hp & Hm); exists t; (split; [exact Hp | now apply Hshape]).
Qed.

Lemma func_b4a0_succeeds (content : text) :
  snd (func_b4a0 content) <> None <->
  holds decoder_shape content \/ holds decoder_alt_shape content
  \/ followed_by start_b4a0 start_shuffle content.
Proof.
  rewrite <- (@search_holds pat_b4a0 decoder_shape content decoder_shape_iff),
    <- (@search_holds pat_b4a0_alt decoder_alt_shape content decoder_alt_shape_iff).
  destruct (re_search pat_b4a0 content) as [m|] eqn:Ea.
  { unfold func_b4a0. rewrite Ea. cbn [snd found].
    split; [intros _; left |]; discriminate. }
  destruct (re_search pat_b4a0_alt content) as [m|] eqn:Eb.
  { unfold func_b4a0. rewrite Ea, Eb. cbn [snd found].
    split; [intros _; right; left |]; discriminate. }
  rewrite func_b4a0_fallback, positional_succeeds by auto. split.
  - auto.
  - intros [F|[F|F]]; [contradiction | contradiction | exact F].
Qed.

Lemma shuffle_iife_succeeds (content : text) :
  snd (shuffle_iife content) <> None <->
  holds shuffle_shape content \/ followed_by start_shuffle next_statement content.
Proof.
  rewrite <- (@search_holds pat_shuffle shuffle_shape content shuffle_shape_iff).
  destruct (re_search pat_shuffle content) as [m|] eqn:E.
  { unfold shuffle_iife. rewrite E. cbn [snd found].
    split; [intros _; left |]; discriminate. }
  rewrite shuffle_iife_fallback by assumption. cbn [snd say].
  rewrite positional_succeeds by auto. split.
  - auto.
  - intros [F|F]; [contradiction | exact F].
Qed.

End Success.

(** X11. The lazy quantifier stops at the first end token.  The
    configuration payload holds no newline and never the two characters [';]:
    a longer text between the quotes is cut at its first [';].  Likewise the
    end token [return _0x8b05();}] occurs in the lookup-table fragment, after
    the start token, only as its last characters. *)
Theorem fragments_end_at_first_token (content frag : text) :
  (snd (config_str content) = Some frag ->
   one_line frag /\ forall k, ~ occurs_at (txt "';") frag k)
  /\
  (snd (func_8b05 content) = Some frag ->
   forall k, length (txt "function _0x8b05(){") <= k ->
             occurs_at (txt "return _0x8b05();}") frag k ->
             k + length (txt "return _0x8b05();}") = length frag).
Proof.
  split; intros H.
  - pose proof (config_str_spec content) as Hs. rewrite H in Hs.
    destruct Hs as (i & ((pre & post & E & Hi) & Hl & (_ & _ & Hmin)) & _).
    split; [exact Hl|]. intros k Hocc.
    pose proof (occurs_at_bound Hocc) as Hb.
    change (txt "';") with close_config in Hocc, Hb.
    apply (Hmin (i + length open_config + k)).
    + lia.
    + assert (0 < length close_config) by (vm_compute; lia). lia.
    + replace (pre ++ open_config ++ frag ++ close_config ++ post)
        with ((pre ++ open_config) ++ frag ++ (close_config ++ post)) in E
        by now rewrite <- !app_assoc.
      rewrite E. replace (i + length open_config) with (length (pre ++ open_config))
        by (rewrite length_app; lia).
      now apply occurs_in_part.
  - pose proof (func_8b05_spec content) as Hs. rewrite H in Hs.
    destruct Hs as (i & mid & ((pre & post & E & Hi) & _ & (_ & _ & Hmin))
                    & -> & _).
    intros k Hk Hocc. change (txt "function _0x8b05(){") with open_8b05 in Hk.
    change (txt "return _0x8b05();}") with close_8b05 in Hocc |- *.
    pose proof (occurs_at_bound Hocc) as Hb. rewrite !length_app in Hb |- *.
    destruct (Nat.lt_ge_cases k (length open_8b05 + length mid)) as [Hc|Hc];
      [exfalso | lia].
    apply (Hmin (i + k)); [lia | lia |].
    replace (pre ++ open_8b05 ++ mid ++ close_8b05 ++ post)
      with (pre ++ (open_8b05 ++ mid ++ close_8b05) ++ post) in E
      by now rewrite <- !app_assoc.
    rewrite E, <- Hi. now apply occurs_in_part.
Qed.

Lemma fragments_end_at_first_token_witness :
  snd (config_str (txt "window['ZpQw9XkLmN8c3vR3']='a';b';")) = Some (txt "a") /\
  forall k, ~ occurs_at (txt "';") (txt "a") k.
Proof.
  split; [vm_compute; reflexivity|].
  apply (fragments_end_at_first_token
           (txt "window['ZpQw9XkLmN8c3vR3']='a';b';") (txt "a")).
  vm_compute. reflexivity.
Defined.

(** X12. When the script works.  With the input file present, a run
    succeeds exactly when the document holds (1) a text delimited on one line
    by [function _0x8b05(){] and [return _0x8b05();}]; (2) a decoder of one of
    the two pattern shapes, or the token [function _0xb4a0] followed somewhere
    by [(function(_0x9dcbec]; (3) a shuffle routine of the pattern shape, or
    the token [(function(_0x9dcbec] followed somewhere by [,!(function];
    (4) an assignment [window['ZpQw9XkLmN8c3vR3']='...';] on one line. *)
Theorem run_succeeds_iff (w : world) (content : text) :
  fs w html_path = Some (Text content) ->
  (fst (extract_decoder w) = Next tt <->
   has_delimited (txt "function _0x8b05(){") (txt "return _0x8b05();}") content
   /\ (holds decoder_shape content \/ holds decoder_alt_shape content
       \/ followed_by (txt "function _0xb4a0") (txt "(function(_0x9dcbec") content)
   /\ (holds shuffle_shape content
       \/ followed_by (txt "(function(_0x9dcbec") (txt ",!(function") content)
   /\ has_delimited (txt "window['ZpQw9XkLmN8c3vR3']='") (txt "';") content).
Proof.
  intros H. destruct (extract_decoder_run w H) as [_ Hrun].
  change (has_delimited (txt "function _0x8b05(){") (txt "return _0x8b05();}") content)
    with (has_delimited open_8b05 close_8b05 content).
  change (has_delimited (txt "window['ZpQw9XkLmN8c3vR3']='") (txt "';") content)
    with (has_delimited open_config close_config content).
  change (followed_by (txt "function _0xb4a0") (txt "(function(_0x9dcbec") content)
    with (followed_by start_b4a0 start_shuffle content).
  change (followed_by (txt "(function(_0x9dcbec") (txt ",!(function") content)
    with (followed_by start_shuffle next_statement content).
  rewrite <- func_8b05_succeeds, <- func_b4a0_succeeds,
    <- shuffle_iife_succeeds, <- config_str_succeeds.
  unfold fragments in Hrun.
  destruct (snd (func_8b05 content)), (snd (func_b4a0 content)),
    (snd (shuffle_iife content)), (snd (config_str content));
    try (destruct Hrun as [-> _]; split;
         [discriminate | intros (F1 & F2 & F3 & F4); congruence]).
  destruct Hrun as [-> _]. split; [intros _ | reflexivity].
  repeat split; discriminate.
Qed.

Lemma run_succeeds_iff_witness :
  has_delimited (txt "window['ZpQw9XkLmN8c3vR3']='") (txt "';") doc_full.
Proof.
  apply (run_succeeds_iff (world_of doc_full) (content := doc_full) eq_refl).
  vm_compute. reflexivity.
Defined.
